(** * Agent-log report: the line classifier and the frequency aggregator

    A shallow embedding of [script/main.py] (functions [read_file],
    [analyze_logs] and [parse_agent_logs]) together with the properties
    of its report.

    Text is a list of characters.  A character is one of the 256 code
    points below U+0100, and the character classes used by [str.strip],
    [str.splitlines] and the [re] module are Python's classification of
    exactly those code points.  Python integers that only count are
    natural numbers, the two numeric options of [analyze_logs] are
    integers.  A [Counter] is an association list in insertion order,
    which is the iteration order of the underlying [dict]. *)

From Stdlib Require Import Ascii String List Arith Bool ZArith Lia.
From Stdlib Require Import Permutation Sorted DecimalString.
From Stdlib Require DecimalNat DecimalFacts.
Import ListNotations.
Local Open Scope string_scope.
Local Open Scope list_scope.
Local Open Scope nat_scope.

Set Implicit Arguments.

(* ================================================================= *)
(** ** Text and character classes *)

Definition str := list ascii.

(** A literal of the source. *)
Definition lit (s : string) : str := list_ascii_of_string s.

(** The double quote and the line feed. *)
Definition dquote : ascii := ascii_of_nat 34.
Definition newline : ascii := ascii_of_nat 10.

Definition code (c : ascii) : nat := nat_of_ascii c.

Definition between (lo hi n : nat) : bool := (lo <=? n) && (n <=? hi).

(** [str.isspace] on one character, also the class [\s] of [re]. *)
Definition isspace (c : ascii) : bool :=
  let n := code c in
  between 9 13 n || between 28 32 n || (n =? 133) || (n =? 160).

(** The line boundaries of [str.splitlines]. *)
Definition is_linebreak (c : ascii) : bool :=
  let n := code c in
  between 10 13 n || between 28 30 n || (n =? 133).

(** [str.isalnum] on one character. *)
Definition isalnum (c : ascii) : bool :=
  let n := code c in
  between 48 57 n || between 65 90 n || between 97 122 n
  || (n =? 170) || (n =? 178) || (n =? 179) || (n =? 181)
  || (n =? 185) || (n =? 186) || between 188 190 n
  || between 192 214 n || between 216 246 n || between 248 255 n.

(** The class [\w] of [re]. *)
Definition isword (c : ascii) : bool := isalnum c || (code c =? 95).

(** The class [.] of [re] (without DOTALL): anything but a line feed. *)
Definition isdot (c : ascii) : bool := negb (code c =? 10).

Fixpoint str_eqb (a b : str) : bool :=
  match a, b with
  | [], [] => true
  | x :: a', y :: b' => Ascii.eqb x y && str_eqb a' b'
  | _, _ => false
  end.

Definition str_eq_dec : forall a b : str, {a = b} + {a <> b} :=
  list_eq_dec ascii_dec.

Fixpoint dropwhile (p : ascii -> bool) (s : str) : str :=
  match s with
  | [] => []
  | c :: s' => if p c then dropwhile p s' else s
  end.

Definition lstrip (s : str) : str := dropwhile isspace s.
Definition rstrip (s : str) : str := rev (dropwhile isspace (rev s)).

(** [str.strip()] *)
Definition strip (s : str) : str := rstrip (lstrip s).

(** [str.splitlines()]: [cur] is the line being read, backwards.  A
    carriage return directly followed by a line feed is one boundary,
    and text that ends on a boundary has no empty last line. *)
Fixpoint splitlines_from (cur : str) (s : str) : list str :=
  match s with
  | [] => match cur with [] => [] | _ => [rev cur] end
  | c :: s' =>
      if is_linebreak c then
        rev cur ::
          match s' with
          | d :: s'' =>
              if (code c =? 13) && (code d =? 10)
              then splitlines_from [] s''
              else splitlines_from [] s'
          | [] => splitlines_from [] s'
          end
      else splitlines_from (c :: cur) s'
  end.

Definition splitlines (s : str) : list str := splitlines_from [] s.

(** [sep.join(lines)] *)
Fixpoint join (sep : str) (lines : list str) : str :=
  match lines with
  | [] => []
  | [l] => l
  | l :: ls => l ++ sep ++ join sep ls
  end.

(** [sub in s] *)
Fixpoint startswith (p s : str) : bool :=
  match p, s with
  | [], _ => true
  | a :: p', b :: s' => Ascii.eqb a b && startswith p' s'
  | _ :: _, [] => false
  end.

Fixpoint contains (sub s : str) : bool :=
  startswith sub s ||
  match s with
  | [] => false
  | _ :: s' => contains sub s'
  end.

(** [str(n)] for a count. *)
Definition str_of_nat (n : nat) : str :=
  lit (NilEmpty.string_of_uint (Nat.to_uint n)).

(** [enumerate(l, start)] *)
Definition enumerate (A : Type) (l : list A) (start : nat) : list (nat * A) :=
  combine (seq start (length l)) l.

(* ================================================================= *)
(** ** The fragment of [re] that the two patterns use

    A pattern is a sequence of items.  An item is a literal character
    or a repetition of a character class, greedy or lazy, with a least
    number of repetitions; either may be wrapped in a capturing
    group. *)

Inductive quant := Greedy | Lazy.

Inductive atom :=
| Chr (c : ascii)
| Rep (q : quant) (least : nat) (cls : ascii -> bool).

Inductive item :=
| Plain (a : atom)
| Group (a : atom).

Definition regex := list item.

Definition atom_of (it : item) : atom :=
  match it with Plain a => a | Group a => a end.

(** The groups so far, with the text of [it] put in front when [it]
    captures. *)
Definition capture (it : item) (w : str) (gs : list str) : list str :=
  match it with Plain _ => gs | Group _ => w :: gs end.

(** A literal run of characters. *)
Definition Lit (s : string) : regex := map (fun c => Plain (Chr c)) (lit s).

(** Length of the longest prefix of [s] inside the class. *)
Fixpoint span (cls : ascii -> bool) (s : str) : nat :=
  match s with
  | [] => 0
  | c :: s' => if cls c then S (span cls s') else 0
  end.

(** The repetition counts a backtracking matcher tries, in its order:
    a greedy repetition from the longest down, a lazy one from the
    shortest up. *)
Definition candidates (q : quant) (least : nat) (cls : ascii -> bool)
    (s : str) : list nat :=
  let up := seq least (S (span cls s) - least) in
  match q with
  | Greedy => rev up
  | Lazy => up
  end.

Fixpoint first_some (A B : Type) (f : A -> option B) (l : list A) : option B :=
  match l with
  | [] => None
  | x :: l' => match f x with Some y => Some y | None => first_some f l' end
  end.

(** Matching anchored at the start of [s], as [Pattern.match]: the
    captured groups of the first way to match that backtracking
    finds. *)
Fixpoint exec (r : regex) (s : str) : option (list str) :=
  match r with
  | [] => Some []
  | it :: r' =>
      match atom_of it with
      | Chr c =>
          match s with
          | d :: s' =>
              if Ascii.eqb c d
              then option_map (capture it [d]) (exec r' s')
              else None
          | [] => None
          end
      | Rep q least cls =>
          first_some
            (fun k => option_map (capture it (firstn k s)) (exec r' (skipn k s)))
            (candidates q least cls s)
      end
  end.

(** [re.search]: the match at the leftmost position that has one. *)
Fixpoint search (r : regex) (s : str) : option (list str) :=
  match exec r s with
  | Some gs => Some gs
  | None =>
      match s with
      | [] => None
      | _ :: s' => search r s'
      end
  end.

(** The line pattern of [parse_agent_logs], item by item: "\[", group 1
    ".*?", "\]", "\s+", group 2 "\w+", "\s+", "-", "\s+", group 3 ".*" *)
Definition pattern : regex :=
  Lit "[" ++ [Group (Rep Lazy 0 isdot)] ++ Lit "]" ++
  [Plain (Rep Greedy 1 isspace); Group (Rep Greedy 1 isword);
   Plain (Rep Greedy 1 isspace)] ++ Lit "-" ++
  [Plain (Rep Greedy 1 isspace); Group (Rep Greedy 0 isdot)].

(** The response pattern, item by item: "Agent Response:", "\s*", a
    double quote, group 1 ".+?", a double quote. *)
Definition response_pattern : regex :=
  Lit "Agent Response:" ++ [Plain (Rep Greedy 0 isspace)] ++
  [Plain (Chr dquote); Group (Rep Lazy 1 isdot); Plain (Chr dquote)].

(* ================================================================= *)
(** ** [collections.Counter]

    The pairs are in insertion order: a key that is counted for the
    first time goes to the end, a key that is already there keeps its
    place. *)

Definition Counter := list (str * nat).

(** [c.get(k, 0)], also [c[k]] *)
Fixpoint get (c : Counter) (k : str) : nat :=
  match c with
  | [] => 0
  | (k', n) :: c' => if str_eqb k' k then n else get c' k
  end.

(** [c[k] += 1] *)
Fixpoint incr (c : Counter) (k : str) : Counter :=
  match c with
  | [] => [(k, 1)]
  | (k', n) :: c' =>
      if str_eqb k' k then (k', S n) :: c' else (k', n) :: incr c' k
  end.

(** [sorted(items, key=itemgetter(1), reverse=True)]: a stable sort,
    largest count first.  An item is put in front of the sorted rest
    and moves behind the items with a strictly larger count. *)
Fixpoint insert_desc (x : str * nat) (l : list (str * nat)) : list (str * nat) :=
  match l with
  | [] => [x]
  | y :: l' => if snd x <? snd y then y :: insert_desc x l' else x :: l
  end.

Definition sorted_desc (l : list (str * nat)) : list (str * nat) :=
  fold_right insert_desc [] l.

(** [c.most_common(n)]: with no [n] the sorted items, with [n] the
    result of [heapq.nlargest(n, items, key=itemgetter(1))], which is
    the first [n] of the sorted items. *)
Definition most_common (c : Counter) (n : option nat) : list (str * nat) :=
  match n with
  | None => sorted_desc c
  | Some n => firstn n (sorted_desc c)
  end.

(* ================================================================= *)
(** ** [parse_agent_logs] *)

(** The three counters of one call. *)
Record tallies := Tallies {
  level_counter : Counter;
  ai_response_counter : Counter;
  error_counter : Counter
}.

Definition fresh : tallies := Tallies [] [] [].

(** What the body does with a matched line. *)
Definition count_entry (st : tallies) (level message : str) : tallies :=
  let st :=
    Tallies (incr (level_counter st) level)
            (ai_response_counter st) (error_counter st) in
  let st :=
    if str_eqb level (lit "INFO") && contains (lit "Agent Response:") message
    then
      match search response_pattern message with
      | Some (response_text :: _) =>
          Tallies (level_counter st)
                  (incr (ai_response_counter st) response_text)
                  (error_counter st)
      | _ => st
      end
    else st in
  if str_eqb level (lit "ERROR")
  then Tallies (level_counter st) (ai_response_counter st)
               (incr (error_counter st) message)
  else st.

(** The body of the loop over [log_lines]. *)
Definition loop_body (st : tallies) (line : str) : tallies :=
  let line := strip line in
  match line with
  | [] => st
  | _ =>
      match exec pattern line with
      | Some [timestamp; level; message] => count_entry st level message
      | _ => st
      end
  end.

Definition run_lines (st : tallies) (log_lines : list str) : tallies :=
  fold_left loop_body log_lines st.

Definition summary_line (label : string) (c : Counter) : str :=
  lit "- " ++ lit label ++ lit " messages: " ++ str_of_nat (get c (lit label)).

Definition response_line (e : nat * (str * nat)) : str :=
  let '(i, (response, count)) := e in
  str_of_nat i ++ lit ". " ++ [dquote] ++ response ++ [dquote] ++
  lit " (" ++ str_of_nat count ++ lit " times)".

Definition error_line (e : nat * (str * nat)) : str :=
  let '(i, (error, count)) := e in
  str_of_nat i ++ lit ". " ++ error ++
  lit " (" ++ str_of_nat count ++ lit " times)".

Definition summary_lines (st : tallies) : list str :=
  [ lit "Log Summary:";
    summary_line "INFO" (level_counter st);
    summary_line "ERROR" (level_counter st);
    summary_line "WARNING" (level_counter st) ].

Definition response_lines (st : tallies) : list str :=
  map response_line (enumerate (most_common (ai_response_counter st) (Some 3)) 1).

Definition error_lines (st : tallies) : list str :=
  map error_line (enumerate (most_common (error_counter st) None) 1).

Definition output_lines (st : tallies) : list str :=
  summary_lines st ++ [ [] ] ++
  [ lit "Top 3 AI Responses:" ] ++ response_lines st ++ [ [] ] ++
  [ lit "Most Common Errors:" ] ++ error_lines st.

Definition parse_agent_logs (report_str : str) : str :=
  let log_lines := splitlines report_str in
  let st := run_lines fresh log_lines in
  join [newline] (output_lines st).

(* ================================================================= *)
(** ** [read_file] and [analyze_logs] *)

(** The files that can be opened, by path; [None] is a failed [open]. *)
Definition filesystem := str -> option str.

Definition read_file (fs : filesystem) (file_path : str) : option str :=
  fs file_path.

Definition analyze_logs (fs : filesystem) (log_file_path : str)
    (top_responses top_errors : Z) : option str :=
  read_file fs log_file_path.

(** The script: [analyze_logs] with its defaults, then
    [parse_agent_logs] on what it returned. *)
Definition script (fs : filesystem) : option str :=
  option_map parse_agent_logs (analyze_logs fs (lit "sample.log") 3%Z 2%Z).

(* ================================================================= *)
(** ** The same call with the objects of the interpreter made explicit

    [Counter()] creates a new object.  The objects created so far are
    kept in a store, by address, and a call works on the three objects
    it has created itself. *)

Definition store := list Counter.

(** [Counter()] *)
Definition alloc (h : store) : nat * store := (length h, h ++ [ [] ]).

Definition load (h : store) (a : nat) : Counter := nth a h [].

Fixpoint save (h : store) (a : nat) (c : Counter) : store :=
  match h, a with
  | [], _ => []
  | _ :: h', 0 => c :: h'
  | x :: h', S a' => x :: save h' a' c
  end.

(** The addresses of [level_counter], [ai_response_counter] and
    [error_counter] of one call. *)
Definition frame := (nat * nat * nat)%type.

Definition read (h : store) (f : frame) : tallies :=
  let '(a1, a2, a3) := f in Tallies (load h a1) (load h a2) (load h a3).

Definition write (h : store) (f : frame) (st : tallies) : store :=
  let '(a1, a2, a3) := f in
  save (save (save h a1 (level_counter st)) a2 (ai_response_counter st))
       a3 (error_counter st).

Definition parse_agent_logs_in (h : store) (report_str : str) : str * store :=
  let log_lines := splitlines report_str in
  let '(a1, h) := alloc h in
  let '(a2, h) := alloc h in
  let '(a3, h) := alloc h in
  let f := (a1, a2, a3) in
  let h := fold_left (fun h line => write h f (loop_body (read h f) line))
                     log_lines h in
  (join [newline] (output_lines (read h f)), h).

(** Two calls on the same text, one after the other. *)
Definition run_twice (h : store) (report_str : str) : str * str :=
  let '(first, h) := parse_agent_logs_in h report_str in
  let '(second, _) := parse_agent_logs_in h report_str in
  (first, second).

(* ================================================================= *)
(** ** Notions of the specification *)

Definition all (cls : ascii -> bool) (w : str) : Prop := forallb cls w = true.

(** What a piece of text must be for an item to match it. *)
Definition piece_ok (it : item) (w : str) : Prop :=
  match atom_of it with
  | Chr c => w = [c]
  | Rep _ least cls => least <= length w /\ all cls w
  end.

(** The groups of a match, from the pieces of its items. *)
Fixpoint groups (r : regex) (pieces : list str) : list str :=
  match r, pieces with
  | it :: r', w :: ps => capture it w (groups r' ps)
  | _, _ => []
  end.

(** [r] matches a prefix of [s], cut into [pieces], one per item. *)
Definition matches (r : regex) (s : str) (pieces : list str) : Prop :=
  Forall2 piece_ok r pieces /\ exists rest, s = concat pieces ++ rest.

(** The shape of a log line that the line pattern accepts: a
    bracketed timestamp, a severity token of word characters and a
    message, with runs of white space and a dash between them.  The
    timestamp is any text without a line feed; it may hold a closing
    bracket, which the shape of the specification, [spec_shape] below,
    does not allow. *)
Definition log_shape (line : str) : Prop :=
  exists timestamp ws1 severity ws2 ws3 message,
    line = lit "[" ++ timestamp ++ lit "]" ++ ws1 ++ severity ++ ws2 ++
           lit "-" ++ ws3 ++ message
    /\ all isdot timestamp
    /\ (ws1 <> [] /\ all isspace ws1)
    /\ (severity <> [] /\ all isword severity)
    /\ (ws2 <> [] /\ all isspace ws2)
    /\ (ws3 <> [] /\ all isspace ws3).

(** The classifier: the part of the loop body that decides whether a
    line is an entry, and which. *)
Definition entry := (str * str * str)%type.

Definition classify (line : str) : option entry :=
  match strip line with
  | [] => None
  | l =>
      match exec pattern l with
      | Some [timestamp; level; message] => Some (timestamp, level, message)
      | _ => None
      end
  end.

(** The response that an entry adds to the response counter. *)
Definition extract_response (level message : str) : option str :=
  if str_eqb level (lit "INFO") && contains (lit "Agent Response:") message
  then
    match search response_pattern message with
    | Some (response_text :: _) => Some response_text
    | _ => None
    end
  else None.

Definition of_option (A : Type) (o : option A) : list A :=
  match o with Some x => [x] | None => [] end.

(** The entries of the lines, in input order, and what they carry. *)
Definition entries (log_lines : list str) : list entry :=
  flat_map (fun line => of_option (classify line)) log_lines.

Definition levels_of (es : list entry) : list str :=
  map (fun e : entry => snd (fst e)) es.

Definition responses_of (es : list entry) : list str :=
  flat_map (fun e : entry => of_option (extract_response (snd (fst e)) (snd e))) es.

Definition errors_of (es : list entry) : list str :=
  flat_map (fun e : entry =>
              if str_eqb (snd (fst e)) (lit "ERROR") then [snd e] else []) es.

(** The number of elements of a list that have a property. *)
Inductive counts (A : Type) (P : A -> Prop) : list A -> nat -> Prop :=
| counts_nil : counts P [] 0
| counts_yes x l n : P x -> counts P l n -> counts P (x :: l) (S n)
| counts_no x l n : ~ P x -> counts P l n -> counts P (x :: l) n.

(** [sum(c.values())] *)
Definition total (c : Counter) : nat :=
  fold_right (fun kv acc => snd kv + acc) 0 c.

Definition keys (c : Counter) : list str := map fst c.

(** [x] stands somewhere in front of an occurrence of [y]. *)
Inductive before (A : Type) (x y : A) : list A -> Prop :=
| before_here l : In y l -> before x y (x :: l)
| before_later a l : before x y l -> before x y (a :: l).

(** The first occurrence of [x] comes before every occurrence of [y]. *)
Definition first_seen_before (x y : str) (l : list str) : Prop :=
  exists pre post, l = pre ++ x :: post /\ ~ In x pre /\ ~ In y pre.

(** What the response pattern captures: [s] begins with the marker,
    optional white space and a quoted span [c]; [c] has a character,
    which may be a double quote, and the closing quote is the first
    double quote behind that character.  The span in the words of the
    specification is [spec_span_at] below. *)
Definition quoted_span_at (s c : str) : Prop :=
  exists ws rest,
    s = lit "Agent Response:" ++ ws ++ [dquote] ++ c ++ [dquote] ++ rest
    /\ all isspace ws /\ c <> [] /\ all isdot c /\ ~ In dquote (tl c).

(** [c] is the quoted span at the leftmost place of [message] that
    has one. *)
Definition first_quoted_span (message c : str) : Prop :=
  exists pre s,
    message = pre ++ s /\ quoted_span_at s c /\
    forall pre' s' c', message = pre' ++ s' -> length pre' < length pre ->
                       ~ quoted_span_at s' c'.

(** The marker, optional white space and an empty quoted span, and no
    other double quote in the message. *)
Definition only_empty_span (message : str) : Prop :=
  exists pre ws rest,
    message = pre ++ lit "Agent Response:" ++ ws ++ [dquote; dquote] ++ rest
    /\ all isspace ws /\ ~ In dquote pre /\ ~ In dquote rest.

(** The marker, optional white space and an empty quoted span. *)
Definition empty_span_after_marker (message : str) : Prop :=
  exists pre ws rest,
    message = pre ++ lit "Agent Response:" ++ ws ++ [dquote; dquote] ++ rest
    /\ all isspace ws.

(* ================================================================= *)
(** ** Inputs of the tests and of the scenarios *)

Definition quoted (s : string) : str := [dquote] ++ lit s ++ [dquote].

Definition response_entry (ts response : string) : str :=
  lit "[" ++ lit ts ++ lit "] INFO - Agent Response: " ++ quoted response.

(** Every line ends with a line feed. *)
Definition text_of (lines : list str) : str :=
  concat (map (fun l => l ++ [newline]) lines).

(** Two responses, once each. *)
Definition scenario_B : str :=
  text_of [ response_entry "T" "Hi"; response_entry "T" "Bye" ].

(** The log of [test_custom_top_n]. *)
Definition custom_top_n_log : str :=
  [newline] ++
  text_of
    [ response_entry "2025-02-20 14:32:10" "Hello! How can I help you today?";
      lit "[2025-02-20 14:33:15] ERROR - Model Timeout after 5000ms";
      response_entry "2025-02-20 14:34:02" "I'm sorry, I didn't understand that.";
      response_entry "2025-02-20 14:35:20" "Please provide more details.";
      response_entry "2025-02-20 14:36:45" "Hello! How can I help you today?";
      lit "[2025-02-20 14:37:30] ERROR - API Connection Failure";
      response_entry "2025-02-20 14:38:12" "Thank you for your question.";
      lit "[2025-02-20 14:39:55] ERROR - Invalid Response Format";
      response_entry "2025-02-20 14:40:33" "Hello! How can I help you today?";
      lit "[2025-02-20 14:41:22] ERROR - Model Timeout after 5000ms" ].

(** Largest count first. *)
Definition count_ge (a b : str * nat) : Prop := snd b <= snd a.

(** The severities that have a line in the summary. *)
Definition named (level : str) : Prop :=
  level = lit "INFO" \/ level = lit "ERROR" \/ level = lit "WARNING".

(** Two states of the counters that differ at most in the counts of
    severities without a line in the summary. *)
Definition same_report_state (a b : tallies) : Prop :=
  (forall level, named level ->
     get (level_counter a) level = get (level_counter b) level) /\
  ai_response_counter a = ai_response_counter b /\
  error_counter a = error_counter b.

(** The report for the lines of the input. *)
Definition report_of (log_lines : list str) : str :=
  join [newline] (output_lines (run_lines fresh log_lines)).

(** A message with the marker, an empty quoted span and more text
    with a double quote behind it. *)
Definition empty_then_quote : str :=
  lit "Agent Response: " ++ [dquote; dquote] ++ lit "x" ++ [dquote].

(** A message with the marker and an empty quoted span only. *)
Definition empty_only : str := lit "Agent Response: " ++ [dquote; dquote].

(** A message with the marker and a quoted response. *)
Definition greeting : str := lit "Agent Response: " ++ quoted "Hi".

(** The three objects of a call, as they lie in the store. *)
Definition cells (st : tallies) : store :=
  [level_counter st; ai_response_counter st; error_counter st].

(** The responses section that the report shows for the log of
    [test_custom_top_n]. *)
Definition custom_top_n_responses : list str :=
  [ lit "Top 3 AI Responses:";
    lit "1. " ++ quoted "Hello! How can I help you today?" ++ lit " (3 times)";
    lit "2. " ++ quoted "I'm sorry, I didn't understand that." ++ lit " (1 times)";
    lit "3. " ++ quoted "Please provide more details." ++ lit " (1 times)" ].

(** The counter after counting the elements of a list, one by one. *)
Definition tally_of (l : list str) : Counter := fold_left incr l [].

(** Scenario A: two equal responses, an error, a warning. *)
Definition scenario_A : str :=
  text_of [ response_entry "T" "Hi"; lit "[T] ERROR - Timeout";
            response_entry "T" "Hi"; lit "[T] WARNING - slow" ].

Definition scenario_A_report : list str :=
  [ lit "Log Summary:"; lit "- INFO messages: 2"; lit "- ERROR messages: 1";
    lit "- WARNING messages: 1"; [];
    lit "Top 3 AI Responses:"; lit "1. " ++ quoted "Hi" ++ lit " (2 times)"; [];
    lit "Most Common Errors:"; lit "1. Timeout (1 times)" ].

(** A run of white space with at least one character. *)
Definition gap (w : str) : Prop := w <> [] /\ all isspace w.

(** Text without white space at its two ends. *)
Definition trimmed (s : str) : Prop :=
  (forall c r, s = c :: r -> isspace c = false) /\
  (forall f c, s = f ++ [c] -> isspace c = false).

(** A line written the way the line pattern reads it. *)
Definition log_line (ts w1 level w2 w3 msg : str) : str :=
  lit "[" ++ ts ++ lit "]" ++ w1 ++ level ++ w2 ++ lit "-" ++ w3 ++ msg.

(** A character that is no line boundary, and a decimal digit. *)
Definition no_break (c : ascii) : bool := negb (is_linebreak c).
Definition isdigit (c : ascii) : bool := between 48 57 (code c).

(* ================================================================= *)
(** ** [extract_message_counts] of the tests *)

(** [int(s)] for a run of digits; [None] is a [ValueError]. *)
Definition int_of_str (s : str) : option nat :=
  match s with
  | [] => None
  | _ => option_map Nat.of_uint
           (NilEmpty.uint_of_string (string_of_list_ascii s))
  end.

(** The pattern of one count, item by item: the label with
    " messages:", "\s*", group 1 "\d+". *)
Definition count_pattern (label : string) : regex :=
  Lit label ++ Lit " messages:" ++
  [Plain (Rep Greedy 0 isspace); Group (Rep Greedy 1 isdigit)].

(** One value of the dictionary: the number behind the first match of
    the pattern, [None] when the pattern is not found. *)
Definition extract_count (label : string) (report_text : str) : option nat :=
  match search (count_pattern label) report_text with
  | Some (digits :: _) => int_of_str digits
  | _ => None
  end.

(** The values of the keys INFO, ERROR and WARNING, in this order. *)
Definition extract_message_counts (report_text : str)
    : option nat * option nat * option nat :=
  (extract_count "INFO" report_text,
   extract_count "ERROR" report_text,
   extract_count "WARNING" report_text).

(** The text of a report whose summary shows the three numbers
    written as [dI], [dE] and [dW], with [rest] behind the summary. *)
Definition summary_text (dI dE dW rest : str) : str :=
  lit "Log Summary:" ++ [newline] ++
  lit "- INFO messages: " ++ dI ++ [newline] ++
  lit "- ERROR messages: " ++ dE ++ [newline] ++
  lit "- WARNING messages: " ++ dW ++ [newline] ++ rest.

(** A run of at least one digit. *)
Definition digits (d : str) : Prop := d <> [] /\ all isdigit d.

(* ================================================================= *)
(** ** The shape and the span in the words of the specification *)

(** The shape of a log line as the specification words it: the
    timestamp is text without a closing bracket inside one pair of
    brackets.  [log_shape] is wider: there the timestamp may hold a
    closing bracket. *)
Definition spec_shape (line : str) : Prop :=
  exists timestamp ws1 severity ws2 ws3 message,
    line = log_line timestamp ws1 severity ws2 ws3 message
    /\ all isdot timestamp /\ ~ In "]"%char timestamp
    /\ gap ws1 /\ (severity <> [] /\ all isword severity)
    /\ gap ws2 /\ gap ws3.

(** The quoted span as the specification words it: [s] begins with the
    marker, optional white space and a double quote, and [c] is the
    text from there up to the next double quote; [c] may be empty.
    [quoted_span_at] differs: there [c] has a character, which may be a
    double quote. *)
Definition spec_span_at (s c : str) : Prop :=
  exists ws rest,
    s = lit "Agent Response:" ++ ws ++ [dquote] ++ c ++ [dquote] ++ rest
    /\ all isspace ws /\ ~ In dquote c.

(** [c] is the span, in the words of the specification, at the
    leftmost place of [message] that has one. *)
Definition first_spec_span (message c : str) : Prop :=
  exists pre s,
    message = pre ++ s /\ spec_span_at s c /\
    forall pre' s' c', message = pre' ++ s' -> length pre' < length pre ->
                       ~ spec_span_at s' c'.

(** The marker, optional white space and an empty quoted span, with no
    double quote behind the span and no quoted span that begins at an
    earlier place of the message.  Double quotes in front of the marker
    are allowed. *)
Definition lone_empty_span (message : str) : Prop :=
  exists pre ws rest,
    message = pre ++ lit "Agent Response:" ++ ws ++ [dquote; dquote] ++ rest
    /\ all isspace ws /\ ~ In dquote rest
    /\ forall p s c, message = p ++ s -> length p < length pre ->
                     ~ quoted_span_at s c.

(** A line with a closing bracket inside its brackets, and a text of
    three lines with such a line. *)
Definition bracket_line : str := lit "[a] b] INFO - x".

Definition bracket_log : str :=
  text_of [ lit "[T] ERROR - Timeout"; bracket_line; lit "no entry" ].

Definition bracket_error_line : str := lit "  [x] y] ERROR - disk".

(** A message with the marker, an empty quoted span and a quoted text
    later on. *)
Definition empty_then_later : str :=
  lit "Agent Response: " ++ [dquote; dquote] ++ lit " and " ++ quoted "later".

(** A message with a quoted text in front of the marker and an empty
    quoted span behind it. *)
Definition quote_before_marker : str :=
  lit "say " ++ quoted "hi" ++ lit " then Agent Response: " ++
  [dquote; dquote].

(* ================================================================= *)
(** ** Text *)

Lemma str_eqb_eq (a b : str) : str_eqb a b = true <-> a = b.
Proof.
  revert b; induction a as [|x a IH]; intros [|y b]; simpl; split;
    try congruence; try reflexivity.
  - intros H. apply andb_true_iff in H as [Hx Hab].
    apply Ascii.eqb_eq in Hx. apply IH in Hab. congruence.
  - intros H. injection H as -> ->.
    apply andb_true_iff; split; [apply Ascii.eqb_refl | now apply IH].
Qed.

Lemma str_eqb_refl (a : str) : str_eqb a a = true.
Proof. now apply str_eqb_eq. Qed.

Lemma str_eqb_neq (a b : str) : str_eqb a b = false <-> a <> b.
Proof.
  rewrite <- str_eqb_eq. destruct (str_eqb a b); split; congruence.
Qed.

Lemma all_app cls (u v : str) : all cls (u ++ v) <-> all cls u /\ all cls v.
Proof. unfold all. rewrite forallb_app, andb_true_iff. tauto. Qed.

Lemma all_rev cls (u : str) : all cls (rev u) <-> all cls u.
Proof.
  unfold all. rewrite !forallb_forall. split; intros H x Hx; apply H;
    [now apply in_rev in Hx | now apply in_rev].
Qed.

(* ================================================================= *)
(** ** The matcher against the pieces of a match *)

Lemma first_some_inv (A B : Type) (f : A -> option B) l y :
  first_some f l = Some y ->
  exists l1 x l2, l = l1 ++ x :: l2 /\ f x = Some y /\
                  Forall (fun z => f z = None) l1.
Proof.
  induction l as [|a l IH]; simpl; [discriminate|].
  destruct (f a) eqn:Fa.
  - intros [= ->]. exists [], a, l. auto.
  - intros H. destruct (IH H) as (l1 & x & l2 & -> & Fx & Hl1).
    exists (a :: l1), x, l2. auto.
Qed.

Lemma first_some_hit (A B : Type) (f : A -> option B) l x :
  In x l -> f x <> None -> first_some f l <> None.
Proof.
  induction l as [|a l IH]; simpl; [tauto|].
  intros [<-|Hx] Fx; destruct (f a) eqn:Fa; try congruence. now apply IH.
Qed.

Lemma span_le cls (s : str) : span cls s <= length s.
Proof. induction s as [|c s IH]; simpl; [lia | destruct (cls c); simpl; lia]. Qed.

Lemma span_firstn cls (s : str) k : k <= span cls s -> all cls (firstn k s).
Proof.
  unfold all. revert k; induction s as [|c s IH]; intros k; simpl.
  - intros Hk. replace k with 0 by lia. reflexivity.
  - destruct (cls c) eqn:Hc; intros Hk.
    + destruct k as [|k]; simpl; [reflexivity|]. rewrite Hc. apply IH. lia.
    + replace k with 0 by lia. reflexivity.
Qed.

Lemma span_app cls (w t : str) : all cls w -> length w <= span cls (w ++ t).
Proof.
  unfold all. induction w as [|c w IH]; simpl; [lia|].
  intros H. apply andb_true_iff in H as [-> Hw]. specialize (IH Hw). lia.
Qed.

Lemma in_candidates q least cls s k :
  In k (candidates q least cls s) <-> least <= k <= span cls s.
Proof.
  unfold candidates. destruct q; [rewrite <- in_rev|]; rewrite in_seq; lia.
Qed.

Lemma exec_sound r : forall s gs,
  exec r s = Some gs ->
  exists pieces, matches r s pieces /\ gs = groups r pieces.
Proof.
  unfold matches.
  induction r as [|it r IH]; intros s gs; simpl.
  - intros [= <-]. exists []. repeat split; [constructor | now exists s].
  - destruct (atom_of it) as [c|q least cls] eqn:Ha.
    + destruct s as [|d s]; [discriminate|].
      destruct (Ascii.eqb c d) eqn:Hcd; [|discriminate].
      apply Ascii.eqb_eq in Hcd; subst d.
      destruct (exec r s) as [gs'|] eqn:Hr; [|discriminate].
      intros [= <-]. destruct (IH _ _ Hr) as (ps & (Hps & rest & ->) & ->).
      exists ([c] :: ps). repeat split.
      * constructor; [unfold piece_ok; now rewrite Ha | exact Hps].
      * now exists rest.
    + intros H. apply first_some_inv in H as (l1 & k & l2 & Hl & Hk & _).
      assert (Hin : In k (candidates q least cls s))
        by (rewrite Hl; apply in_or_app; right; now left).
      apply in_candidates in Hin.
      destruct (exec r (skipn k s)) as [gs'|] eqn:Hr; [|discriminate].
      injection Hk as <-.
      destruct (IH _ _ Hr) as (ps & (Hps & rest & Hrest) & ->).
      exists (firstn k s :: ps). repeat split.
      * constructor; [|exact Hps]. unfold piece_ok; rewrite Ha. split.
        -- rewrite length_firstn. pose proof (span_le cls s). lia.
        -- apply span_firstn; lia.
      * exists rest. simpl. rewrite <- app_assoc, <- Hrest.
        symmetry; apply firstn_skipn.
Qed.

Lemma exec_complete r : forall s pieces,
  matches r s pieces -> exec r s <> None.
Proof.
  unfold matches.
  induction r as [|it r IH]; intros s pieces (Hps & rest & ->); simpl.
  - discriminate.
  - inversion Hps as [|? w ? ps Hw Hps']; subst. unfold piece_ok in Hw.
    destruct (atom_of it) as [c|q least cls] eqn:Ha.
    + subst w. simpl. rewrite Ascii.eqb_refl.
      specialize (IH (concat ps ++ rest) ps).
      destruct (exec r (concat ps ++ rest)); [destruct it; discriminate|].
      exfalso; apply IH; [|reflexivity]. split; [exact Hps' | now exists rest].
    + destruct Hw as [Hleast Hall].
      apply first_some_hit with (x := length w).
      * apply in_candidates. split; [exact Hleast|].
        simpl. rewrite <- app_assoc. now apply span_app.
      * simpl. rewrite <- app_assoc, skipn_app, skipn_all, Nat.sub_diag. simpl.
        specialize (IH (concat ps ++ rest) ps).
        destruct (exec r (concat ps ++ rest)); [destruct it; discriminate|].
        exfalso; apply IH; [|reflexivity]. split; [exact Hps' | now exists rest].
Qed.

(* ================================================================= *)
(** ** The line pattern and the shape of a log line *)

Ltac inv_pieces :=
  repeat match goal with
    | H : Forall2 _ (_ :: _) _ |- _ => inversion H; subst; clear H
    | H : Forall2 _ [] _ |- _ => inversion H; subst; clear H
    end.

Lemma nonempty_length (w : str) n : S n <= length w -> w <> [].
Proof. destruct w; simpl; [lia | discriminate]. Qed.

Lemma length_nonempty (w : str) : w <> [] -> 1 <= length w.
Proof. destruct w; simpl; [congruence | lia]. Qed.

Lemma exec_pattern_groups line gs :
  exec pattern line = Some gs -> exists ts level msg, gs = [ts; level; msg].
Proof.
  intros H. apply exec_sound in H as (pieces & (Hps & _) & ->).
  unfold pattern, Lit in Hps. simpl in Hps. inv_pieces.
  simpl. eauto.
Qed.

Lemma exec_pattern_shape line :
  (exists gs, exec pattern line = Some gs) <-> log_shape line.
Proof.
  split.
  - intros [gs H]. apply exec_sound in H as (pieces & (Hps & rest & ->) & _).
    unfold pattern, Lit in Hps. simpl in Hps. inv_pieces.
    unfold piece_ok in *; simpl in *.
    repeat match goal with
      | H : _ /\ _ |- _ => destruct H
      | H : ?w = [_] |- _ => subst w
      end.
    match goal with
    | |- log_shape ((_ ++ ?ts ++ _ ++ ?w1 ++ ?sev ++ ?w2 ++ _ ++ ?w3 ++ ?m ++ []) ++ ?rest) =>
        exists ts, w1, sev, w2, w3, (m ++ rest)
    end.
    rewrite app_nil_r. repeat (simpl; rewrite <- app_assoc). simpl.
    repeat split; eauto using nonempty_length.
  - intros (ts & w1 & sev & w2 & w3 & msg & -> & Hts & [N1 H1] & [Ns Hs] & [N2 H2] & [N3 H3]).
    destruct (exec pattern (lit "[" ++ ts ++ lit "]" ++ w1 ++ sev ++ w2 ++ lit "-" ++ w3 ++ msg))
      as [gs|] eqn:E; [now exists gs|].
    exfalso. revert E.
    apply exec_complete
      with (pieces := [lit "["; ts; lit "]"; w1; sev; w2; lit "-"; w3; []]).
    split.
    + unfold pattern, Lit. simpl.
      repeat (apply Forall2_cons;
              [unfold piece_ok; simpl;
               first [reflexivity
                     | split; [first [lia | now apply length_nonempty]
                              | assumption || reflexivity]]|]).
      apply Forall2_nil.
    + exists msg. unfold concat. rewrite app_nil_r.
      repeat (simpl; rewrite <- app_assoc). reflexivity.
Qed.

Lemma classify_some line e :
  classify line = Some e -> strip line <> [] /\ log_shape (strip line).
Proof.
  unfold classify. destruct (strip line) as [|c l] eqn:Hs; [discriminate|].
  destruct (exec pattern (c :: l)) as [gs|] eqn:E; [|discriminate].
  intros _. split; [discriminate|]. apply exec_pattern_shape. now exists gs.
Qed.

Lemma classify_none line :
  classify line = None <-> strip line = [] \/ ~ log_shape (strip line).
Proof.
  split.
  - unfold classify. destruct (strip line) as [|c l] eqn:Hs; [now left|].
    destruct (exec pattern (c :: l)) as [gs|] eqn:E.
    + destruct (exec_pattern_groups _ E) as (ts & level & msg & ->). discriminate.
    + intros _. right. intros Hsh. apply exec_pattern_shape in Hsh as [gs Hgs].
      congruence.
  - intros H. destruct (classify line) as [e|] eqn:C; [|reflexivity].
    apply classify_some in C. tauto.
Qed.

Lemma loop_body_classify st line :
  loop_body st line =
  match classify line with
  | Some (_, level, message) => count_entry st level message
  | None => st
  end.
Proof.
  unfold loop_body, classify. destruct (strip line) as [|c l]; [reflexivity|].
  destruct (exec pattern (c :: l)) as [[|ts [|level [|msg [|? ?]]]]|]; reflexivity.
Qed.

(** The scenarios of the specification, run. *)
Example scenario_A_runs :
  parse_agent_logs scenario_A = join [newline] scenario_A_report.
Proof. reflexivity. Qed.

Example repeated_error_counted_once :
  error_counter
    (run_lines fresh [lit "[T] ERROR - disk"; lit "[T] ERROR - disk";
                      lit "[T] ERROR - disk"]) = [(lit "disk", 3)].
Proof. reflexivity. Qed.

(** Backtracking lets the timestamp run over a closing bracket when
    the text behind the first one does not go on as the pattern
    wants. *)
Example timestamp_over_bracket :
  classify (lit "[a] b] INFO - x") = Some (lit "a] b", lit "INFO", lit "x").
Proof. reflexivity. Qed.

(* ================================================================= *)
(** ** Counters *)

Lemma get_incr_same c k : get (incr c k) k = S (get c k).
Proof.
  induction c as [|[k' n] c IH]; simpl.
  - now rewrite str_eqb_refl.
  - destruct (str_eqb k' k) eqn:E; simpl; rewrite E; auto.
Qed.

Lemma get_incr_other c k k' : k <> k' -> get (incr c k) k' = get c k'.
Proof.
  intros Hk. induction c as [|[k0 n] c IH]; simpl.
  - apply str_eqb_neq in Hk. now rewrite Hk.
  - destruct (str_eqb k0 k) eqn:E; simpl.
    + apply str_eqb_eq in E; subst k0. apply str_eqb_neq in Hk. now rewrite Hk.
    + now rewrite IH.
Qed.

Lemma total_cons kv c : total (kv :: c) = snd kv + total c.
Proof. reflexivity. Qed.

Lemma total_incr c k : total (incr c k) = S (total c).
Proof.
  induction c as [|[k' n] c IH]; [reflexivity|].
  simpl incr. destruct (str_eqb k' k); rewrite !total_cons; simpl;
    [lia | rewrite IH; lia].
Qed.

Lemma keys_incr_old c k : In k (keys c) -> keys (incr c k) = keys c.
Proof.
  induction c as [|[k' n] c IH]; simpl; [tauto|].
  destruct (str_eqb k' k) eqn:E; simpl; [reflexivity|].
  intros [->|H]; [now rewrite str_eqb_refl in E | now rewrite IH].
Qed.

Lemma keys_incr_new c k : ~ In k (keys c) -> keys (incr c k) = keys c ++ [k].
Proof.
  induction c as [|[k' n] c IH]; simpl; [reflexivity|].
  intros H. destruct (str_eqb k' k) eqn:E; simpl.
  - apply str_eqb_eq in E. tauto.
  - rewrite IH; tauto.
Qed.

Lemma keys_incr c k : exists extra, keys (incr c k) = keys c ++ extra.
Proof.
  destruct (in_dec str_eq_dec k (keys c)) as [H|H].
  - exists []. now rewrite keys_incr_old, app_nil_r.
  - exists [k]. now apply keys_incr_new.
Qed.

Lemma in_keys_incr c k k' : In k' (keys (incr c k)) <-> In k' (keys c) \/ k' = k.
Proof.
  destruct (in_dec str_eq_dec k (keys c)) as [H|H].
  - rewrite keys_incr_old by exact H. split; [tauto|]. intros [?| ->]; tauto.
  - rewrite keys_incr_new by exact H. rewrite in_app_iff. simpl.
    intuition congruence.
Qed.

Lemma NoDup_keys_incr c k : NoDup (keys c) -> NoDup (keys (incr c k)).
Proof.
  intros Hc. destruct (in_dec str_eq_dec k (keys c)) as [H|H].
  - now rewrite keys_incr_old.
  - rewrite keys_incr_new by exact H. apply NoDup_app; auto.
    + constructor; [tauto | constructor].
    + intros x Hx [<-|[]]. tauto.
Qed.

Lemma get_count c l k :
  get (fold_left incr l c) k = get c k + count_occ str_eq_dec l k.
Proof.
  revert c; induction l as [|x l IH]; intros c; simpl; [lia|].
  rewrite IH. destruct (str_eq_dec x k) as [->|Hx].
  - rewrite get_incr_same. lia.
  - now rewrite get_incr_other.
Qed.

Lemma total_count c l : total (fold_left incr l c) = total c + length l.
Proof.
  revert c; induction l as [|x l IH]; intros c; simpl; [lia|].
  rewrite IH, total_incr. lia.
Qed.

Lemma keys_count c l : exists extra, keys (fold_left incr l c) = keys c ++ extra.
Proof.
  revert c; induction l as [|x l IH]; intros c; simpl.
  - exists []. now rewrite app_nil_r.
  - destruct (IH (incr c x)) as [e1 ->]. destruct (keys_incr c x) as [e2 ->].
    exists (e2 ++ e1). now rewrite app_assoc.
Qed.

Lemma in_keys_count c l k :
  In k (keys (fold_left incr l c)) <-> In k (keys c) \/ In k l.
Proof.
  revert c; induction l as [|x l IH]; intros c; simpl; [tauto|].
  rewrite IH, in_keys_incr. intuition congruence.
Qed.

Lemma NoDup_keys_count c l : NoDup (keys c) -> NoDup (keys (fold_left incr l c)).
Proof.
  revert c; induction l as [|x l IH]; intros c Hc; simpl; [exact Hc|].
  apply IH. now apply NoDup_keys_incr.
Qed.

Lemma get_in c k n : NoDup (keys c) -> In (k, n) c -> get c k = n.
Proof.
  induction c as [|[k' n'] c IH]; simpl; [tauto|].
  intros Hnd [[= -> ->]|Hin].
  - now rewrite str_eqb_refl.
  - inversion Hnd as [|? ? Hk Hc]; subst.
    destruct (str_eqb k' k) eqn:E.
    + apply str_eqb_eq in E; subst k'. exfalso; apply Hk.
      change k with (fst (k, n)). now apply in_map.
    + now apply IH.
Qed.

(** The first occurrence of [x] comes first: so does its key. *)
Lemma before_keys_count x y l :
  x <> y -> first_seen_before x y l -> In y l ->
  before x y (keys (fold_left incr l [])).
Proof.
  intros Hxy (pre & post & -> & Hx & Hy) Hin.
  rewrite fold_left_app. simpl.
  set (c0 := fold_left incr pre []).
  assert (Hx0 : ~ In x (keys c0))
    by (unfold c0; rewrite in_keys_count; simpl; tauto).
  assert (Hy0 : ~ In y (keys c0))
    by (unfold c0; rewrite in_keys_count; simpl; tauto).
  destruct (keys_count (incr c0 x) post) as [extra Hk].
  assert (Hye : In y extra).
  { assert (H : In y (keys (fold_left incr post (incr c0 x)))).
    { rewrite in_keys_count. right.
      apply in_app_or in Hin as [?|[?|?]]; [tauto | congruence | assumption]. }
    rewrite Hk, keys_incr_new, !in_app_iff in H by exact Hx0.
    simpl in H. intuition congruence. }
  rewrite Hk, keys_incr_new, <- app_assoc by exact Hx0. simpl.
  clear - Hye. induction (keys c0) as [|a l IH]; simpl.
  - now constructor.
  - now constructor 2.
Qed.

(* ================================================================= *)
(** ** The stable sort and the ranks *)

Lemma insert_desc_perm x l : Permutation (insert_desc x l) (x :: l).
Proof.
  induction l as [|y l IH]; simpl; [reflexivity|].
  destruct (snd x <? snd y); [|reflexivity].
  rewrite IH. apply perm_swap.
Qed.

Lemma sorted_desc_perm l : Permutation (sorted_desc l) l.
Proof.
  induction l as [|x l IH]; simpl; [reflexivity|].
  rewrite insert_desc_perm. now constructor.
Qed.

Lemma insert_desc_sorted x l :
  StronglySorted count_ge l -> StronglySorted count_ge (insert_desc x l).
Proof.
  induction 1 as [|y l Hl IH Hy]; simpl.
  - repeat constructor.
  - destruct (snd x <? snd y) eqn:E.
    + apply Nat.ltb_lt in E. constructor; [exact IH|].
      rewrite Forall_forall in *. intros z Hz.
      apply (Permutation_in _ (insert_desc_perm x l)) in Hz as [<-|Hz];
        [unfold count_ge; lia | now apply Hy].
    + apply Nat.ltb_ge in E. constructor; [now constructor|].
      constructor; [exact E|].
      rewrite Forall_forall in *. intros z Hz. specialize (Hy z Hz).
      unfold count_ge in *. lia.
Qed.

Lemma sorted_desc_sorted l : StronglySorted count_ge (sorted_desc l).
Proof.
  induction l as [|x l IH]; simpl; [constructor | now apply insert_desc_sorted].
Qed.

Lemma before_insert (x y a : str * nat) s :
  before x y s -> before x y (insert_desc a s).
Proof.
  induction 1 as [l Hy|z l H IH]; simpl.
  - destruct (snd a <? snd x).
    + constructor. apply (Permutation_in _ (Permutation_sym (insert_desc_perm a l))).
      now right.
    + constructor 2. now constructor.
  - destruct (snd a <? snd z).
    + now constructor 2.
    + constructor 2. now constructor 2.
Qed.

Lemma before_insert_new (x y : str * nat) s :
  In y s -> snd y <= snd x -> before x y (insert_desc x s).
Proof.
  intros Hy Hle. induction s as [|z s IH]; simpl; [destruct Hy|].
  destruct (snd x <? snd z) eqn:E.
  - apply Nat.ltb_lt in E. constructor 2. apply IH.
    destruct Hy as [->|Hy]; [lia | exact Hy].
  - now constructor.
Qed.

(** The sort is stable: of two items the one that stood in front stays
    in front, unless the other one has the larger count. *)
Lemma sorted_desc_stable (x y : str * nat) l :
  before x y l -> snd y <= snd x -> before x y (sorted_desc l).
Proof.
  induction 1 as [l Hy|z l H IH]; intros Hle; simpl.
  - apply before_insert_new; [|exact Hle].
    now apply (Permutation_in _ (Permutation_sym (sorted_desc_perm l))).
  - apply before_insert. now apply IH.
Qed.

Lemma before_nth (A : Type) (x y : A) l :
  before x y l ->
  exists i j, i < j /\ nth_error l i = Some x /\ nth_error l j = Some y.
Proof.
  induction 1 as [l Hy|z l H (i & j & Hij & Hi & Hj)].
  - apply In_nth_error in Hy as [j Hj]. exists 0, (S j). repeat split; [lia | exact Hj].
  - exists (S i), (S j). repeat split; [lia | exact Hi | exact Hj].
Qed.

Lemma in_enumerate (A : Type) (l : list A) start i x :
  In (i, x) (enumerate l start) <->
  exists k, i = start + k /\ nth_error l k = Some x.
Proof.
  unfold enumerate. revert start; induction l as [|a l IH]; intros start; simpl.
  - split; [tauto|]. intros (k & _ & H). destruct k; discriminate.
  - rewrite IH. split.
    + intros [[= <- <-]|(k & -> & Hk)].
      * exists 0. split; [lia | reflexivity].
      * exists (S k). split; [lia | exact Hk].
    + intros ([|k] & -> & Hk); simpl in Hk.
      * left. injection Hk as <-. f_equal. lia.
      * right. exists k. split; [lia | exact Hk].
Qed.

Lemma nth_firstn_some (A : Type) (l : list A) n k x :
  nth_error (firstn n l) k = Some x <-> k < n /\ nth_error l k = Some x.
Proof.
  rewrite nth_error_firstn. destruct (k <? n) eqn:E.
  - apply Nat.ltb_lt in E. tauto.
  - apply Nat.ltb_ge in E. split; [discriminate | lia].
Qed.

(** In the first [n] items of a list without repetition, numbered
    from [start], an item in front has the smaller number. *)
Lemma rank_before (A : Type) (x y : A) l n start j :
  NoDup l -> before x y l ->
  In (j, y) (enumerate (firstn n l) start) ->
  exists i, i < j /\ In (i, x) (enumerate (firstn n l) start).
Proof.
  intros Hnd Hb Hj.
  apply in_enumerate in Hj as (kj & -> & Hkj).
  apply nth_firstn_some in Hkj as [Hlt Hkj].
  apply before_nth in Hb as (i & j & Hij & Hi & Hj).
  assert (j = kj).
  { apply (proj1 (NoDup_nth_error l) Hnd); [|congruence].
    apply nth_error_Some. congruence. }
  subst kj. exists (start + i). split; [lia|].
  apply in_enumerate. exists i. split; [reflexivity|].
  apply nth_firstn_some. split; [lia | exact Hi].
Qed.

Lemma sorted_nth (l : list (str * nat)) i j a b :
  StronglySorted count_ge l -> i < j ->
  nth_error l i = Some a -> nth_error l j = Some b -> count_ge a b.
Proof.
  intros Hs. revert i j. induction Hs as [|z l Hl IH Hz]; intros i j Hij Hi Hj.
  - destruct i; discriminate.
  - destruct j as [|j]; [lia|]. simpl in Hj. destruct i as [|i]; simpl in Hi.
    + injection Hi as <-. rewrite Forall_forall in Hz. apply Hz.
      eapply nth_error_In; eauto.
    + apply (IH i j); [lia | exact Hi | exact Hj].
Qed.

(** Among the numbered first [n] items of a sorted list, a smaller
    number has a count that is at least as large. *)
Lemma rank_sorted (l : list (str * nat)) n start i j a b :
  StronglySorted count_ge l ->
  In (i, a) (enumerate (firstn n l) start) ->
  In (j, b) (enumerate (firstn n l) start) ->
  i < j -> count_ge a b.
Proof.
  intros Hs Hi Hj Hij.
  apply in_enumerate in Hi as (ki & -> & Hi). apply nth_firstn_some in Hi as [_ Hi].
  apply in_enumerate in Hj as (kj & -> & Hj). apply nth_firstn_some in Hj as [_ Hj].
  apply (sorted_nth (i := ki) (j := kj) Hs); [lia | exact Hi | exact Hj].
Qed.

Lemma NoDup_sorted_desc (c : Counter) : NoDup (keys c) -> NoDup (sorted_desc c).
Proof.
  intros H. apply (Permutation_NoDup (Permutation_sym (sorted_desc_perm c))).
  now apply NoDup_map_inv in H.
Qed.

Lemma before_map (A B : Type) (f : A -> B) x y l :
  before x y l -> before (f x) (f y) (map f l).
Proof.
  induction 1; simpl; [constructor; now apply in_map | now constructor 2].
Qed.

(** From the keys back to the items of a counter. *)
Lemma before_items_gen (g : str -> nat) (c : Counter) x y :
  (forall kv, In kv c -> snd kv = g (fst kv)) ->
  before x y (keys c) -> before (x, g x) (y, g y) c.
Proof.
  unfold keys. induction c as [|[k n] c IH]; intros G H; simpl in H;
    inversion H as [l Hy|z l Hb]; subst.
  - pose proof (G (k, n) (or_introl eq_refl)) as Hk. simpl in Hk.
    rewrite <- Hk. constructor.
    apply in_map_iff in Hy as ([k' n'] & <- & Hin).
    pose proof (G (k', n') (or_intror Hin)) as Hk'. simpl in *.
    now rewrite <- Hk'.
  - constructor 2. apply IH; [|exact Hb].
    intros kv Hin. apply G. now right.
Qed.

Lemma before_items (c : Counter) x y :
  NoDup (keys c) -> before x y (keys c) ->
  before (x, get c x) (y, get c y) c.
Proof.
  intros Hnd. apply before_items_gen.
  intros [k n] Hin. simpl. symmetry. now apply get_in.
Qed.

(* ================================================================= *)
(** ** The loop against the entries of the input *)

Lemma level_count_entry st l m :
  level_counter (count_entry st l m) = incr (level_counter st) l.
Proof.
  unfold count_entry.
  destruct (str_eqb l (lit "INFO") && contains (lit "Agent Response:") m);
    [destruct (search response_pattern m) as [[|? ?]|]|];
    destruct (str_eqb l (lit "ERROR")); reflexivity.
Qed.

Lemma ai_count_entry st l m :
  ai_response_counter (count_entry st l m) =
  fold_left incr (of_option (extract_response l m)) (ai_response_counter st).
Proof.
  unfold count_entry, extract_response.
  destruct (str_eqb l (lit "INFO") && contains (lit "Agent Response:") m);
    [destruct (search response_pattern m) as [[|? ?]|]|];
    destruct (str_eqb l (lit "ERROR")); reflexivity.
Qed.

Lemma error_count_entry st l m :
  error_counter (count_entry st l m) =
  fold_left incr (if str_eqb l (lit "ERROR") then [m] else []) (error_counter st).
Proof.
  unfold count_entry.
  destruct (str_eqb l (lit "INFO") && contains (lit "Agent Response:") m);
    [destruct (search response_pattern m) as [[|? ?]|]|];
    destruct (str_eqb l (lit "ERROR")); reflexivity.
Qed.

Lemma run_lines_cons st line lines :
  run_lines st (line :: lines) = run_lines (loop_body st line) lines.
Proof. reflexivity. Qed.

Lemma run_lines_app st l1 l2 :
  run_lines st (l1 ++ l2) = run_lines (run_lines st l1) l2.
Proof. apply fold_left_app. Qed.

Lemma entries_cons line lines :
  entries (line :: lines) = of_option (classify line) ++ entries lines.
Proof. reflexivity. Qed.

Lemma run_lines_level st lines :
  level_counter (run_lines st lines) =
  fold_left incr (levels_of (entries lines)) (level_counter st).
Proof.
  revert st; induction lines as [|line lines IH]; intros st; [reflexivity|].
  rewrite run_lines_cons, entries_cons, IH, loop_body_classify.
  destruct (classify line) as [[[ts level] msg]|]; simpl; [|reflexivity].
  now rewrite level_count_entry.
Qed.

Lemma run_lines_ai st lines :
  ai_response_counter (run_lines st lines) =
  fold_left incr (responses_of (entries lines)) (ai_response_counter st).
Proof.
  revert st; induction lines as [|line lines IH]; intros st; [reflexivity|].
  rewrite run_lines_cons, entries_cons, IH, loop_body_classify.
  destruct (classify line) as [[[ts level] msg]|]; simpl; [|reflexivity].
  now rewrite fold_left_app, ai_count_entry.
Qed.

Lemma run_lines_error st lines :
  error_counter (run_lines st lines) =
  fold_left incr (errors_of (entries lines)) (error_counter st).
Proof.
  revert st; induction lines as [|line lines IH]; intros st; [reflexivity|].
  rewrite run_lines_cons, entries_cons, IH, loop_body_classify.
  destruct (classify line) as [[[ts level] msg]|]; simpl; [|reflexivity].
  now rewrite fold_left_app, error_count_entry.
Qed.

Lemma counts_entries lines :
  counts (fun line => strip line <> [] /\ log_shape (strip line))
         lines (length (entries lines)).
Proof.
  induction lines as [|line lines IH]; [constructor|].
  rewrite entries_cons. destruct (classify line) as [e|] eqn:C; simpl.
  - constructor; [now apply classify_some in C | exact IH].
  - constructor 3; [|exact IH]. apply classify_none in C. tauto.
Qed.

(** The ranked items of a counter that was filled from a list. *)
Lemma NoDup_keys_tally l : NoDup (keys (tally_of l)).
Proof. apply NoDup_keys_count. constructor. Qed.

Lemma in_tally l k n :
  In (k, n) (tally_of l) -> In k l /\ n = count_occ str_eq_dec l k.
Proof.
  intros H. split.
  - assert (Hk : In k (keys (tally_of l)))
      by (change k with (fst (k, n)); now apply in_map).
    apply in_keys_count in Hk as [[]|Hk]. exact Hk.
  - rewrite <- (@get_in (tally_of l) k n (NoDup_keys_tally l) H).
    unfold tally_of. now rewrite get_count.
Qed.

Lemma in_ranked l n start i k m :
  In (i, (k, m)) (enumerate (most_common (tally_of l) n) start) ->
  In k l /\ m = count_occ str_eq_dec l k.
Proof.
  intros H. apply in_enumerate in H as (j & _ & Hj).
  apply in_tally. apply (Permutation_in _ (sorted_desc_perm (tally_of l))).
  destruct n as [n|]; simpl in Hj;
    [apply nth_firstn_some in Hj as [_ Hj]|]; now apply nth_error_In in Hj.
Qed.

Lemma ranked_desc l n start i j a b :
  In (i, a) (enumerate (most_common (tally_of l) n) start) ->
  In (j, b) (enumerate (most_common (tally_of l) n) start) ->
  i < j -> snd b <= snd a.
Proof.
  destruct n as [n|]; simpl.
  - apply rank_sorted, sorted_desc_sorted.
  - rewrite <- (firstn_all (sorted_desc (tally_of l))).
    apply rank_sorted, sorted_desc_sorted.
Qed.

Lemma ranked_ties l n start x y j m :
  x <> y -> count_occ str_eq_dec l x = count_occ str_eq_dec l y ->
  first_seen_before x y l ->
  In (j, (y, m)) (enumerate (most_common (tally_of l) n) start) ->
  exists i,
    i < j /\ In (i, (x, m)) (enumerate (most_common (tally_of l) n) start).
Proof.
  intros Hxy Heq Hfirst Hj.
  pose proof Hj as Hj'. apply in_ranked in Hj' as [Hy ->].
  assert (Hb : before (x, get (tally_of l) x) (y, get (tally_of l) y)
                 (sorted_desc (tally_of l))).
  { apply sorted_desc_stable.
    - apply before_items; [apply NoDup_keys_tally|].
      now apply before_keys_count.
    - unfold tally_of. rewrite !get_count. simpl. lia. }
  assert (G : forall k, get (tally_of l) k = count_occ str_eq_dec l k)
    by (intros k; unfold tally_of; now rewrite get_count).
  rewrite !G, Heq in Hb.
  assert (Hnd : NoDup (sorted_desc (tally_of l)))
    by apply NoDup_sorted_desc, NoDup_keys_tally.
  destruct n as [n|]; simpl in *.
  - eapply rank_before; eauto.
  - rewrite <- (firstn_all (sorted_desc (tally_of l))) in Hj |- *.
    eapply rank_before; eauto.
Qed.

(* ================================================================= *)
(** ** The ranking of the responses *)

Lemma run_fresh_ai lines :
  ai_response_counter (run_lines fresh lines) =
  fold_left incr (responses_of (entries lines)) [].
Proof. apply run_lines_ai. Qed.

Lemma run_fresh_error lines :
  error_counter (run_lines fresh lines) =
  fold_left incr (errors_of (entries lines)) [].
Proof. apply run_lines_error. Qed.

Lemma run_fresh_level lines :
  level_counter (run_lines fresh lines) =
  fold_left incr (levels_of (entries lines)) [].
Proof. apply run_lines_level. Qed.

(** C1: of two different responses with the same final count, the one
    that was seen first in the input has the smaller rank number in the
    responses section, whenever the other one is listed at all; the
    section is in the order of falling counts. *)
Theorem response_ranking_stable (report_str r1 r2 : str) :
  let st := run_lines fresh (splitlines report_str) in
  let seen := responses_of (entries (splitlines report_str)) in
  let ranked := enumerate (most_common (ai_response_counter st) (Some 3)) 1 in
  r1 <> r2 ->
  get (ai_response_counter st) r1 = get (ai_response_counter st) r2 ->
  first_seen_before r1 r2 seen ->
  parse_agent_logs report_str =
    join [newline]
         (summary_lines st ++ [ []; lit "Top 3 AI Responses:" ] ++
          response_lines st ++ [ []; lit "Most Common Errors:" ] ++
          error_lines st) /\
  response_lines st = map response_line ranked /\
  (forall rank2 count, In (rank2, (r2, count)) ranked ->
     exists rank1, rank1 < rank2 /\ In (rank1, (r1, count)) ranked) /\
  (forall i j a b, In (i, a) ranked -> In (j, b) ranked -> i < j ->
     snd b <= snd a).
Proof.
  intros st seen ranked Hne Heq Hfirst. split; [reflexivity|].
  subst st ranked.
  unfold response_lines. rewrite run_fresh_ai in *. fold seen in Heq |- *.
  rewrite !get_count in Heq. simpl in Heq.
  split; [reflexivity|]. split.
  - intros rank2 count H2. eapply ranked_ties; eauto.
  - intros i j a b. apply ranked_desc.
Qed.

Lemma response_ranking_stable_witness :
  lit "Hi" <> lit "Bye" /\
  first_seen_before (lit "Hi") (lit "Bye")
    (responses_of (entries (splitlines scenario_B))) /\
  exists rank1,
    rank1 < 2 /\
    In (rank1, (lit "Hi", 1))
       (enumerate
          (most_common
             (ai_response_counter (run_lines fresh (splitlines scenario_B)))
             (Some 3)) 1).
Proof.
  assert (Hne : lit "Hi" <> lit "Bye") by discriminate.
  assert (Hf : first_seen_before (lit "Hi") (lit "Bye")
                 (responses_of (entries (splitlines scenario_B)))).
  { exists [], [lit "Bye"]. vm_compute. repeat split; auto. }
  assert (Heq : get (ai_response_counter (run_lines fresh (splitlines scenario_B)))
                    (lit "Hi") =
                get (ai_response_counter (run_lines fresh (splitlines scenario_B)))
                    (lit "Bye")) by (vm_compute; reflexivity).
  split; [exact Hne|]. split; [exact Hf|].
  apply (proj1 (proj2 (proj2 (@response_ranking_stable scenario_B (lit "Hi")
                                (lit "Bye") Hne Heq Hf)))).
  vm_compute. right. left. reflexivity.
Defined.

(* ================================================================= *)
(** ** The errors section *)

Lemma length_enumerate (A : Type) (l : list A) start :
  length (enumerate l start) = length l.
Proof.
  unfold enumerate. rewrite length_combine, length_seq. apply Nat.min_id.
Qed.



Lemma keys_sorted_perm (c : Counter) : Permutation (keys (sorted_desc c)) (keys c).
Proof. apply Permutation_map, sorted_desc_perm. Qed.

Lemma distinct_keys (l : list str) :
  Permutation (keys (fold_left incr l [])) (nodup str_eq_dec l).
Proof.
  apply NoDup_Permutation.
  - apply NoDup_keys_count. constructor.
  - apply NoDup_nodup.
  - intros k. rewrite in_keys_count, nodup_In. simpl. tauto.
Qed.

(* ================================================================= *)
(** ** Stripping, and lines that are no entries *)

Lemma dropwhile_all p (w : str) : all p w -> dropwhile p w = [].
Proof.
  unfold all. induction w as [|c w IH]; simpl; [reflexivity|].
  intros H. apply andb_true_iff in H as [-> Hw]. now apply IH.
Qed.

Lemma dropwhile_pad_l p (w l : str) : all p w -> dropwhile p (w ++ l) = dropwhile p l.
Proof.
  unfold all. induction w as [|c w IH]; simpl; [reflexivity|].
  intros H. apply andb_true_iff in H as [-> Hw]. now apply IH.
Qed.

Lemma dropwhile_split p (l : str) :
  exists w, l = w ++ dropwhile p l /\ all p w /\
            forall c r, dropwhile p l = c :: r -> p c = false.
Proof.
  induction l as [|a l (w & Hl & Hw & Hhd)]; simpl.
  - exists []. repeat split. discriminate.
  - destruct (p a) eqn:Pa.
    + exists (a :: w). repeat split.
      * simpl. now f_equal.
      * unfold all in *. simpl. now rewrite Pa.
      * exact Hhd.
    + exists []. repeat split. intros c r [= <- _]. exact Pa.
Qed.

Lemma dropwhile_app_keep p (l w : str) :
  dropwhile p l <> [] -> dropwhile p (l ++ w) = dropwhile p l ++ w.
Proof.
  induction l as [|a l IH]; simpl; [congruence|].
  destruct (p a); [exact IH | reflexivity].
Qed.

Lemma dropwhile_nil_all p (l : str) : dropwhile p l = [] -> all p l.
Proof.
  unfold all. induction l as [|a l IH]; simpl; [reflexivity|].
  destruct (p a); [exact IH | discriminate].
Qed.

Lemma rstrip_pad (l w : str) : all isspace w -> rstrip (l ++ w) = rstrip l.
Proof.
  intros Hw. unfold rstrip. rewrite rev_app_distr, dropwhile_pad_l; [reflexivity|].
  now apply all_rev.
Qed.

Lemma strip_pad (w1 l w2 : str) :
  all isspace w1 -> all isspace w2 -> strip (w1 ++ l ++ w2) = strip l.
Proof.
  intros H1 H2. unfold strip, lstrip. rewrite dropwhile_pad_l by exact H1.
  destruct (dropwhile isspace l) as [|c m] eqn:E.
  - apply dropwhile_nil_all in E.
    rewrite dropwhile_all; [reflexivity|]. apply all_app. now split.
  - rewrite dropwhile_app_keep by congruence. rewrite E. now apply rstrip_pad.
Qed.

(** What [strip] leaves: the line without the white space at its two
    ends. *)
Lemma strip_spec (line : str) :
  exists w1 w2,
    line = w1 ++ strip line ++ w2 /\ all isspace w1 /\ all isspace w2 /\
    (forall c r, strip line = c :: r -> isspace c = false) /\
    (forall f c, strip line = f ++ [c] -> isspace c = false).
Proof.
  destruct (dropwhile_split isspace line) as (w1 & Hl & Hw1 & Hhd).
  destruct (dropwhile_split isspace (rev (lstrip line))) as (w2 & Hr & Hw2 & Hlast).
  assert (Hm : lstrip line = strip line ++ rev w2).
  { unfold strip, rstrip. rewrite <- rev_app_distr, <- Hr. now rewrite rev_involutive. }
  exists w1, (rev w2). repeat split.
  - fold (lstrip line) in Hl. now rewrite <- Hm.
  - exact Hw1.
  - now apply all_rev.
  - intros c r Hs. apply (Hhd c (r ++ rev w2)).
    fold (lstrip line). now rewrite Hm, Hs.
  - intros f c Hs. apply (Hlast c (rev f)).
    unfold strip, rstrip in Hs. apply (f_equal (@rev ascii)) in Hs.
    rewrite rev_involutive, rev_app_distr in Hs. exact Hs.
Qed.

(** C7, as amended: the loop body sees a line only through its
    stripped form, so white space at the two ends of a line makes no
    difference; a line that is empty once stripped, or that has not
    the shape that the line pattern accepts, in which the timestamp is
    any text without a line feed and may hold a closing bracket, is no
    entry, and the body returns the three counters as they were; every
    other line is an entry.  The body is a total function: nothing is
    raised. *)
Theorem unmatched_line_ignored (st : tallies) (line : str) :
  (exists w1 w2,
     line = w1 ++ strip line ++ w2 /\ all isspace w1 /\ all isspace w2 /\
     (forall c r, strip line = c :: r -> isspace c = false) /\
     (forall f c, strip line = f ++ [c] -> isspace c = false)) /\
  (forall w1 w2, all isspace w1 -> all isspace w2 ->
     loop_body st (w1 ++ line ++ w2) = loop_body st line) /\
  (strip line = [] \/ ~ log_shape (strip line) ->
   classify line = None /\ loop_body st line = st) /\
  (classify line = None -> strip line = [] \/ ~ log_shape (strip line)).
Proof.
  split; [apply strip_spec|]. split; [|split].
  - intros w1 w2 H1 H2. unfold loop_body. now rewrite strip_pad.
  - intros H. apply classify_none in H.
    split; [exact H|]. now rewrite loop_body_classify, H.
  - apply classify_none.
Qed.

Lemma unmatched_line_ignored_witness :
  (strip (lit "   ") = [] \/ ~ log_shape (strip (lit "   "))) /\
  classify (lit "   ") = None /\
  loop_body (Tallies [(lit "INFO", 2)] [] []) (lit "   ") =
  Tallies [(lit "INFO", 2)] [] [] /\
  (strip (lit " [T INFO - x ") = [] \/
   ~ log_shape (strip (lit " [T INFO - x "))) /\
  classify (lit " [T INFO - x ") = None /\
  loop_body (Tallies [(lit "INFO", 2)] [] []) (lit " [T INFO - x ") =
  Tallies [(lit "INFO", 2)] [] [].
Proof.
  assert (H : strip (lit "   ") = [] \/ ~ log_shape (strip (lit "   ")))
    by (left; reflexivity).
  assert (K : strip (lit " [T INFO - x ") = [] \/
              ~ log_shape (strip (lit " [T INFO - x "))).
  { right. intros K. apply exec_pattern_shape in K as [gs K].
    vm_compute in K. discriminate. }
  split; [exact H|].
  split; [exact (proj1 (proj1 (proj2 (proj2 (unmatched_line_ignored
                                 (Tallies [(lit "INFO", 2)] [] []) (lit "   "))))
                          H))|].
  split; [exact (proj2 (proj1 (proj2 (proj2 (unmatched_line_ignored
                                 (Tallies [(lit "INFO", 2)] [] []) (lit "   "))))
                          H))|].
  split; [exact K|].
  exact (proj1 (proj2 (proj2 (unmatched_line_ignored
                                (Tallies [(lit "INFO", 2)] [] [])
                                (lit " [T INFO - x "))))
           K).
Defined.

(* ================================================================= *)
(** ** The report of the empty input *)

(** C8: on the empty text the report has the summary header with the
    three counts at 0, the header of the responses and the header of
    the errors, and no entry under either of the two. *)
Theorem empty_input_report :
  splitlines [] = [] /\
  response_lines (run_lines fresh (splitlines [])) = [] /\
  error_lines (run_lines fresh (splitlines [])) = [] /\
  output_lines (run_lines fresh (splitlines [])) =
    [ lit "Log Summary:"; lit "- INFO messages: 0";
      lit "- ERROR messages: 0"; lit "- WARNING messages: 0"; [];
      lit "Top 3 AI Responses:"; []; lit "Most Common Errors:" ] /\
  parse_agent_logs [] =
    lit "Log Summary:
- INFO messages: 0
- ERROR messages: 0
- WARNING messages: 0

Top 3 AI Responses:

Most Common Errors:".
Proof. repeat split. Qed.

(* ================================================================= *)
(** ** Severities without a line in the summary *)

Lemma get_incr c l k :
  get (incr c l) k = if str_eqb l k then S (get c k) else get c k.
Proof.
  destruct (str_eqb l k) eqn:E.
  - apply str_eqb_eq in E; subst. apply get_incr_same.
  - apply str_eqb_neq in E. now apply get_incr_other.
Qed.

Lemma same_report_refl st : same_report_state st st.
Proof. repeat split. Qed.

Lemma same_count_entry a b l m :
  same_report_state a b -> same_report_state (count_entry a l m) (count_entry b l m).
Proof.
  intros (Hl & Ha & He). repeat split.
  - intros k Hk. rewrite !level_count_entry, !get_incr, (Hl k Hk). reflexivity.
  - now rewrite !ai_count_entry, Ha.
  - now rewrite !error_count_entry, He.
Qed.

Lemma same_loop_body a b line :
  same_report_state a b -> same_report_state (loop_body a line) (loop_body b line).
Proof.
  intros H. rewrite !loop_body_classify.
  destruct (classify line) as [[[ts l] m]|]; [now apply same_count_entry | exact H].
Qed.

Lemma same_run_lines lines : forall a b,
  same_report_state a b -> same_report_state (run_lines a lines) (run_lines b lines).
Proof.
  induction lines as [|line lines IH]; intros a b H; [exact H|].
  rewrite !run_lines_cons. now apply IH, same_loop_body.
Qed.

Lemma same_summary a b :
  same_report_state a b -> summary_lines a = summary_lines b.
Proof.
  intros (Hl & _). unfold summary_lines, summary_line.
  rewrite !Hl; [reflexivity | | |]; unfold named; auto.
Qed.

Lemma same_output a b :
  same_report_state a b -> output_lines a = output_lines b.
Proof.
  intros H. unfold output_lines. rewrite (same_summary H).
  destruct H as (_ & Ha & He). unfold response_lines, error_lines.
  now rewrite Ha, He.
Qed.

Lemma other_entry_same st l m :
  ~ named l -> same_report_state (count_entry st l m) st.
Proof.
  intros Hn. unfold named in Hn.
  assert (HI : str_eqb l (lit "INFO") = false) by (apply str_eqb_neq; tauto).
  assert (HE : str_eqb l (lit "ERROR") = false) by (apply str_eqb_neq; tauto).
  repeat split.
  - intros k Hk. rewrite level_count_entry, get_incr.
    destruct (str_eqb l k) eqn:E; [|reflexivity].
    apply str_eqb_eq in E; subst. contradiction.
  - rewrite ai_count_entry. unfold extract_response. now rewrite HI.
  - rewrite error_count_entry. now rewrite HE.
Qed.

(** C5: every entry adds one to the count of its own severity,
    whatever the token is, and changes no other count of the tally.
    The summary is the header and the three lines of INFO, ERROR and
    WARNING.  An entry with any other token leaves these lines as they
    are, and taking its line out of the input leaves the whole report
    as it is. *)
Theorem other_severities_counted (st : tallies) (line timestamp level message : str) :
  classify line = Some (timestamp, level, message) ->
  get (level_counter (loop_body st line)) level = S (get (level_counter st) level) /\
  (forall other, other <> level ->
     get (level_counter (loop_body st line)) other = get (level_counter st) other) /\
  summary_lines st =
    [ lit "Log Summary:";
      lit "- INFO messages: " ++ str_of_nat (get (level_counter st) (lit "INFO"));
      lit "- ERROR messages: " ++ str_of_nat (get (level_counter st) (lit "ERROR"));
      lit "- WARNING messages: " ++
        str_of_nat (get (level_counter st) (lit "WARNING")) ] /\
  (~ named level ->
   summary_lines (loop_body st line) = summary_lines st /\
   forall front back,
     report_of (front ++ line :: back) = report_of (front ++ back)).
Proof.
  intros C.
  assert (Hbody : forall s, loop_body s line = count_entry s level message)
    by (intros s; now rewrite loop_body_classify, C).
  rewrite Hbody, level_count_entry.
  split; [|split; [|split; [reflexivity|intros Hn; split]]].
  - apply get_incr_same.
  - intros other Ho. apply get_incr_other. congruence.
  - apply same_summary. now apply other_entry_same.
  - intros front back. unfold report_of. f_equal. apply same_output.
    rewrite !run_lines_app, run_lines_cons.
    apply same_run_lines. rewrite Hbody. now apply other_entry_same.
Qed.

Lemma other_severities_counted_witness :
  classify (lit "[T] DEBUG - cache warm") =
    Some (lit "T", lit "DEBUG", lit "cache warm") /\
  ~ named (lit "DEBUG") /\
  get (level_counter (loop_body fresh (lit "[T] DEBUG - cache warm"))) (lit "DEBUG") = 1 /\
  report_of ([lit "[T] INFO - up"] ++ lit "[T] DEBUG - cache warm" :: [lit "[T] ERROR - Timeout"]) =
  report_of ([lit "[T] INFO - up"] ++ [lit "[T] ERROR - Timeout"]).
Proof.
  assert (C : classify (lit "[T] DEBUG - cache warm") =
              Some (lit "T", lit "DEBUG", lit "cache warm")) by reflexivity.
  assert (N : ~ named (lit "DEBUG"))
    by (intros [H|[H|H]]; discriminate).
  pose proof (@other_severities_counted fresh _ _ _ _ C) as (H1 & _ & _ & H2).
  split; [exact C|]. split; [exact N|]. split; [exact H1|].
  apply (proj2 (H2 N)).
Defined.

(* ================================================================= *)
(** ** The response pattern and the quoted span *)

Lemma exec_plain_chr c r s gs :
  exec (Plain (Chr c) :: r) s = Some gs ->
  exists s', s = c :: s' /\ exec r s' = Some gs.
Proof.
  simpl. destruct s as [|d s]; [discriminate|].
  destruct (Ascii.eqb c d) eqn:E; [|discriminate].
  apply Ascii.eqb_eq in E; subst d.
  destruct (exec r s) as [gs'|] eqn:Hr; [|discriminate].
  simpl. intros [= <-]. exists s. split; [reflexivity | exact Hr].
Qed.

Lemma seq_split a n l1 k l2 :
  seq a n = l1 ++ k :: l2 -> l1 = seq a (k - a) /\ a <= k.
Proof.
  revert a n; induction l1 as [|x l1 IH]; intros a [|n] H; simpl in H;
    try discriminate.
  - injection H as -> _. rewrite Nat.sub_diag. auto.
  - injection H as <- H. apply IH in H as [-> Hle].
    split; [|lia]. replace (k - a) with (S (k - S a)) by lia. reflexivity.
Qed.

Lemma seq_split_r a n l1 k l2 :
  seq a n = l1 ++ k :: l2 -> l2 = seq (S k) (a + n - S k).
Proof.
  intros H. pose proof (f_equal (@length nat) H) as Hlen.
  rewrite length_seq, length_app in Hlen. simpl in Hlen.
  destruct (seq_split _ _ _ _ _ H) as [-> Hle]. rewrite length_seq in Hlen.
  subst n. rewrite seq_app in H. apply app_inv_head in H. simpl in H.
  replace (a + (k - a)) with k in H by lia. injection H as H.
  rewrite <- H at 1. f_equal. lia.
Qed.

Lemma exec_rep_inv it q least cls r s gs :
  atom_of it = Rep q least cls ->
  exec (it :: r) s = Some gs ->
  exists k gs',
    least <= k <= span cls s /\ exec r (skipn k s) = Some gs' /\
    gs = capture it (firstn k s) gs' /\
    (q = Lazy -> forall j, least <= j < k -> exec r (skipn j s) = None) /\
    (q = Greedy -> forall j, k < j <= span cls s -> exec r (skipn j s) = None).
Proof.
  intros Ha. simpl. rewrite Ha. intros H.
  apply first_some_inv in H as (l1 & k & l2 & Hl & Hk & Hl1).
  assert (Hin : In k (candidates q least cls s))
    by (rewrite Hl; apply in_or_app; right; now left).
  apply in_candidates in Hin.
  destruct (exec r (skipn k s)) as [gs'|] eqn:Hr; [|discriminate].
  injection Hk as <-. exists k, gs'.
  assert (Hnone : forall j, In j l1 -> exec r (skipn j s) = None).
  { rewrite Forall_forall in Hl1. intros j Hj. specialize (Hl1 j Hj).
    destruct (exec r (skipn j s)); [discriminate | reflexivity]. }
  repeat split; try tauto.
  - intros -> j Hj. apply Hnone.
    unfold candidates in Hl. apply seq_split in Hl as [-> _]. apply in_seq; lia.
  - intros -> j Hj. apply Hnone.
    unfold candidates in Hl. apply (f_equal (@rev nat)) in Hl.
    rewrite rev_involutive, rev_app_distr in Hl. cbn [rev] in Hl.
    rewrite <- app_assoc in Hl. cbn [app] in Hl.
    apply seq_split_r in Hl. apply in_rev. rewrite Hl. apply in_seq; lia.
Qed.

Lemma in_firstn_skipn (x : ascii) k (s : str) :
  In x (firstn k s) -> exists i t, i < k /\ skipn i s = x :: t.
Proof.
  revert k; induction s as [|a s IH]; intros [|k]; simpl; try tauto.
  intros [->|H].
  - exists 0, s. split; [lia | reflexivity].
  - destruct (IH k H) as (i & t & Hi & Ht). exists (S i), t. split; [lia | exact Ht].
Qed.

Lemma in_tl_firstn (x : ascii) k (s : str) :
  In x (tl (firstn k s)) -> exists j t, 1 <= j < k /\ skipn j s = x :: t.
Proof.
  destruct s as [|a s]; destruct k as [|k]; simpl; try tauto.
  intros H. apply in_firstn_skipn in H as (i & t & Hi & Ht).
  exists (S i), t. split; [lia | exact Ht].
Qed.

Lemma isspace_no_quote (w : str) : all isspace w -> ~ In dquote w.
Proof.
  unfold all. rewrite forallb_forall. intros H Hin. now apply H in Hin.
Qed.

Lemma exec_response_sound s gs :
  exec response_pattern s = Some gs ->
  exists c, gs = [c] /\ quoted_span_at s c.
Proof.
  unfold response_pattern, Lit.
  cbn [lit list_ascii_of_string map app]. intros H.
  repeat match type of H with
    | exec (Plain (Chr _) :: Plain (Chr _) :: _) _ = _ =>
        apply exec_plain_chr in H as (? & -> & H)
    | exec (Plain (Chr _) :: Plain (Rep _ _ _) :: _) _ = _ =>
        apply exec_plain_chr in H as (? & -> & H)
    end.
  apply exec_rep_inv with (q := Greedy) (least := 0) (cls := isspace)
    in H as (k & gs1 & Hk & H & -> & _ & _); [|reflexivity]. simpl.
  apply exec_plain_chr in H as (s2 & Hs2 & H).
  apply exec_rep_inv with (q := Lazy) (least := 1) (cls := isdot)
    in H as (k2 & gs2 & Hk2 & H & -> & Hmin & _); [|reflexivity]. simpl.
  specialize (Hmin eq_refl).
  apply exec_plain_chr in H as (s3 & Hs3 & H). simpl in H. injection H as <-.
  exists (firstn k2 s2). split; [reflexivity|].
  match goal with
  | |- quoted_span_at (_ :: _ :: _ :: _ :: _ :: _ :: _ :: _ :: _ :: _ :: _ ::
                         _ :: _ :: _ :: _ :: ?t) _ =>
      exists (firstn k t), s3; repeat split
  end.
  - simpl. do 15 f_equal.
    match goal with |- ?t = _ => rewrite <- (firstn_skipn k t) at 1 end.
    rewrite Hs2. do 2 f_equal.
    rewrite <- (firstn_skipn k2 s2) at 1. now rewrite Hs3.
  - apply span_firstn; lia.
  - pose proof (span_le isdot s2). intros E. apply (f_equal (@length ascii)) in E.
    rewrite length_firstn in E. simpl in E. lia.
  - apply span_firstn; lia.
  - intros Hin. apply in_tl_firstn in Hin as (j & t & Hj & Ht).
    specialize (Hmin j Hj). rewrite Ht in Hmin. discriminate Hmin.
Qed.

Lemma exec_response_complete s c :
  quoted_span_at s c -> exec response_pattern s <> None.
Proof.
  intros (ws & rest & -> & Hws & Hc & Hdot & _).
  apply exec_complete
    with (pieces := map (fun ch => [ch]) (lit "Agent Response:") ++
                    [ws; [dquote]; c; [dquote]]).
  split.
  - unfold response_pattern, Lit. simpl.
    repeat (apply Forall2_cons;
            [unfold piece_ok; simpl;
             first [reflexivity
                   | split; [first [lia | now apply length_nonempty]
                            | assumption]]|]).
    apply Forall2_nil.
  - exists rest. repeat (simpl; rewrite <- app_assoc). reflexivity.
Qed.

Lemma first_occurrence_unique (x : ascii) (u u' t t' : str) :
  ~ In x u -> ~ In x u' -> u ++ x :: t = u' ++ x :: t' -> u = u' /\ t = t'.
Proof.
  revert u'; induction u as [|a u IH]; intros [|a' u'] Hu Hu' H; simpl in *.
  - injection H as ->. auto.
  - injection H as -> _. tauto.
  - injection H as -> _. tauto.
  - injection H as -> H. apply IH in H as [-> ->]; tauto.
Qed.

Lemma quoted_span_unique s c c' :
  quoted_span_at s c -> quoted_span_at s c' -> c = c'.
Proof.
  intros (ws & rest & -> & Hws & Hc & _ & Hq) (ws' & rest' & E & Hws' & Hc' & _ & Hq').
  apply app_inv_head in E.
  apply first_occurrence_unique in E as [_ E];
    [|now apply isspace_no_quote..].
  destruct c as [|a c]; [congruence|]. destruct c' as [|a' c']; [congruence|].
  simpl in *. injection E as -> E.
  apply first_occurrence_unique in E as [-> _]; auto.
Qed.

Lemma search_some r s gs :
  search r s = Some gs ->
  exists pre s',
    s = pre ++ s' /\ exec r s' = Some gs /\
    forall pre' s'', s = pre' ++ s'' -> length pre' < length pre ->
                     exec r s'' = None.
Proof.
  induction s as [|a s IH]; simpl.
  - destruct (exec r []) eqn:E; [|discriminate]. intros [= <-].
    exists [], []. repeat split; [exact E|]. simpl; lia.
  - destruct (exec r (a :: s)) eqn:E.
    + intros [= <-]. exists [], (a :: s). repeat split; [exact E|]. simpl; lia.
    + intros H. destruct (IH H) as (pre & s' & -> & Hs' & Hmin).
      exists (a :: pre), s'. repeat split; [exact Hs'|].
      intros [|b pre'] s'' Hsplit Hlen; simpl in *.
      * now subst s''.
      * injection Hsplit as <- Hsplit. apply (Hmin pre'); [exact Hsplit | lia].
Qed.

Lemma search_first r gs s' : forall pre,
  exec r s' = Some gs ->
  (forall pre' s'', pre ++ s' = pre' ++ s'' -> length pre' < length pre ->
                    exec r s'' = None) ->
  search r (pre ++ s') = Some gs.
Proof.
  induction pre as [|a pre IH]; intros Hs' Hmin; simpl.
  - destruct s'; simpl; now rewrite Hs'.
  - rewrite (Hmin [] (a :: pre ++ s')) by (simpl; auto; lia).
    apply IH; [exact Hs'|].
    intros pre' s'' Hsplit Hlen. apply (Hmin (a :: pre')); simpl; [now f_equal | lia].
Qed.

Lemma search_response_found message gs :
  search response_pattern message = Some gs ->
  exists c, gs = [c] /\ first_quoted_span message c.
Proof.
  intros H. apply search_some in H as (pre & s & -> & Hs & Hmin).
  apply exec_response_sound in Hs as (c & -> & Hc).
  exists c. split; [reflexivity|]. exists pre, s. repeat split; [exact Hc|].
  intros pre' s' c' Hsplit Hlen Hc'.
  apply exec_response_complete in Hc'. apply Hc'. now apply (Hmin pre').
Qed.

Lemma search_response_first message c :
  first_quoted_span message c -> search response_pattern message = Some [c].
Proof.
  intros (pre & s & -> & Hc & Hmin).
  apply search_first.
  - destruct (exec response_pattern s) as [gs|] eqn:E.
    + apply exec_response_sound in E as (c' & -> & Hc').
      now rewrite (quoted_span_unique Hc Hc').
    + now apply exec_response_complete in Hc.
  - intros pre' s'' Hsplit Hlen.
    destruct (exec response_pattern s'') as [gs|] eqn:E; [|reflexivity].
    apply exec_response_sound in E as (c' & _ & Hc').
    now apply (Hmin pre' s'' c') in Hc'.
Qed.

(* ================================================================= *)
(** ** The message of an entry is the rest of its line *)

Lemma exec_rep_split it q least cls r s gs :
  atom_of it = Rep q least cls ->
  exec (it :: r) s = Some gs ->
  exists w s' gs',
    s = w ++ s' /\ exec r s' = Some gs' /\ gs = capture it w gs'.
Proof.
  intros Ha H.
  apply exec_rep_inv with (1 := Ha) in H as (k & gs' & _ & Hr & Hg & _).
  exists (firstn k s), (skipn k s), gs'.
  split; [symmetry; apply firstn_skipn | auto].
Qed.

Lemma span_all cls (s : str) : all cls s -> span cls s = length s.
Proof.
  unfold all. induction s as [|c s IH]; simpl; [reflexivity|].
  intros H. apply andb_true_iff in H as [-> Hs]. now rewrite IH.
Qed.

(** A greedy repetition at the end of a pattern takes all it can. *)
Lemma exec_last_greedy it least cls s gs :
  atom_of it = Rep Greedy least cls ->
  exec [it] s = Some gs -> all cls s -> gs = capture it s [].
Proof.
  intros Ha H Hall.
  apply exec_rep_inv with (1 := Ha) in H as (k & gs' & Hk & Hr & -> & _ & Hmax).
  simpl in Hr. injection Hr as <-.
  rewrite span_all in Hk, Hmax by exact Hall.
  destruct (Nat.eq_dec k (length s)) as [->|Hne].
  - now rewrite firstn_all.
  - specialize (Hmax eq_refl (length s)). simpl in Hmax.
    assert (Hn : Some (@nil str) = None) by (apply Hmax; lia). discriminate.
Qed.

Lemma exec_pattern_full line ts level msg :
  exec pattern line = Some [ts; level; msg] -> all isdot line ->
  exists ws1 ws2 ws3,
    line = lit "[" ++ ts ++ lit "]" ++ ws1 ++ level ++ ws2 ++
           lit "-" ++ ws3 ++ msg.
Proof.
  unfold pattern, Lit. cbn [lit list_ascii_of_string map app]. intros H Hdot.
  apply exec_plain_chr in H as (s1 & -> & H).
  apply exec_rep_split with (q := Lazy) (least := 0) (cls := isdot)
    in H as (w1 & s2 & g1 & -> & H & Hg1); [|reflexivity].
  apply exec_plain_chr in H as (s3 & -> & H).
  apply exec_rep_split with (q := Greedy) (least := 1) (cls := isspace)
    in H as (w2 & s4 & g2 & -> & H & ->); [|reflexivity].
  apply exec_rep_split with (q := Greedy) (least := 1) (cls := isword)
    in H as (w3 & s5 & g3 & -> & H & ->); [|reflexivity].
  apply exec_rep_split with (q := Greedy) (least := 1) (cls := isspace)
    in H as (w4 & s6 & g4 & -> & H & ->); [|reflexivity].
  apply exec_plain_chr in H as (s7 & -> & H).
  apply exec_rep_split with (q := Greedy) (least := 1) (cls := isspace)
    in H as (w5 & s8 & g5 & -> & H & ->); [|reflexivity].
  apply exec_last_greedy with (least := 0) (cls := isdot) in H;
    [|reflexivity|].
  - subst g5. simpl in Hg1. injection Hg1 as -> -> ->.
    exists w2, w4, w5. reflexivity.
  - change ("["%char :: w1 ++ "]"%char :: w2 ++ w3 ++ w4 ++ "-"%char :: w5 ++ s8)
      with (["["%char] ++ w1 ++ ["]"%char] ++ w2 ++ w3 ++ w4 ++ ["-"%char] ++
            w5 ++ s8) in Hdot.
    repeat (apply all_app in Hdot as [_ Hdot]). exact Hdot.
Qed.

Lemma splitlines_from_no_break n : forall s cur,
  length s <= n ->
  all (fun c => negb (is_linebreak c)) cur ->
  Forall (all (fun c => negb (is_linebreak c))) (splitlines_from cur s).
Proof.
  induction n as [|n IH]; intros s cur Hn Hcur.
  - destruct s; [|simpl in Hn; lia]. simpl.
    destruct cur; constructor; [now apply all_rev | constructor].
  - destruct s as [|c s]; simpl.
    + destruct cur; constructor; [now apply all_rev | constructor].
    + simpl in Hn. destruct (is_linebreak c) eqn:Hc.
      * constructor; [now apply all_rev|].
        destruct s as [|d s]; [constructor|].
        simpl in Hn.
        destruct ((code c =? 13) && (code d =? 10));
          apply IH; try reflexivity; simpl; lia.
      * apply IH; [lia|]. unfold all in *. simpl. now rewrite Hc.
Qed.

Lemma splitlines_no_feed report_str line :
  In line (splitlines report_str) -> all isdot line.
Proof.
  intros Hin.
  pose proof (@splitlines_from_no_break (length report_str) report_str []
                (le_n _) eq_refl) as H.
  rewrite Forall_forall in H. specialize (H line Hin).
  unfold all in *. rewrite forallb_forall in *. intros c Hc.
  specialize (H c Hc). unfold isdot, is_linebreak in *.
  destruct (code c =? 10) eqn:E; [|reflexivity].
  apply Nat.eqb_eq in E. rewrite E in H. discriminate.
Qed.

Lemma strip_all cls line : all cls line -> all cls (strip line).
Proof.
  destruct (strip_spec line) as (w1 & w2 & Hl & _). intros H.
  rewrite Hl in H. apply all_app in H as [_ H]. now apply all_app in H as [H _].
Qed.

Lemma in_entries e lines :
  In e (entries lines) <-> exists line, In line lines /\ classify line = Some e.
Proof.
  unfold entries. rewrite in_flat_map. split; intros (line & Hin & H);
    exists line; split; auto.
  - destruct (classify line); simpl in H; [|tauto]. destruct H as [->|[]]. reflexivity.
  - rewrite H. now left.
Qed.

(** An entry is its stripped line, cut at the brackets, the token and
    the dash: the message is all the text behind. *)
Lemma entry_of_line report_str line ts level msg :
  In line (splitlines report_str) ->
  classify line = Some (ts, level, msg) ->
  exists ws1 ws2 ws3,
    strip line = lit "[" ++ ts ++ lit "]" ++ ws1 ++ level ++ ws2 ++
                 lit "-" ++ ws3 ++ msg.
Proof.
  intros Hin C. apply exec_pattern_full.
  - unfold classify in C. destruct (strip line) as [|c l]; [discriminate|].
    destruct (exec pattern (c :: l)) as [[|a [|b [|d [|? ?]]]]|];
      try discriminate. now injection C as -> -> ->.
  - apply strip_all. eapply splitlines_no_feed; eauto.
Qed.

Lemma in_errors e lines :
  In e (errors_of (entries lines)) <->
  exists line ts, In line lines /\ classify line = Some (ts, lit "ERROR", e).
Proof.
  unfold errors_of. rewrite in_flat_map. split.
  - intros ([[ts l] m] & He & H). cbn [fst snd] in H.
    destruct (str_eqb l (lit "ERROR")) eqn:E; [|destruct H].
    destruct H as [->|[]]. apply str_eqb_eq in E; subst l.
    apply in_entries in He as (line & Hin & C). now exists line, ts.
  - intros (line & ts & Hin & C). exists (ts, lit "ERROR", e). split.
    + apply in_entries. now exists line.
    + cbn [fst snd]. rewrite str_eqb_refl. now left.
Qed.



(* ================================================================= *)
(** ** What an entry adds to the response counter *)

Lemma extract_found level message c :
  level = lit "INFO" -> contains (lit "Agent Response:") message = true ->
  first_quoted_span message c -> extract_response level message = Some c.
Proof.
  intros -> Hm Hc. unfold extract_response. rewrite Hm.
  now rewrite (search_response_first Hc).
Qed.

Lemma extract_some level message c :
  extract_response level message = Some c ->
  level = lit "INFO" /\ first_quoted_span message c.
Proof.
  unfold extract_response.
  destruct (str_eqb level (lit "INFO")) eqn:E; [|discriminate].
  apply str_eqb_eq in E.
  destruct (contains (lit "Agent Response:") message); [|discriminate].
  destruct (search response_pattern message) as [gs|] eqn:S; [|discriminate].
  apply search_response_found in S as (c' & -> & Hc'). simpl.
  intros [= <-]. auto.
Qed.

(* ================================================================= *)
(** ** The empty quoted span *)

Lemma quote_count_none (l : str) :
  ~ In dquote l <-> count_occ ascii_dec l dquote = 0.
Proof. apply count_occ_not_In. Qed.

Lemma only_empty_span_none message :
  only_empty_span message ->
  forall pre s c, message = pre ++ s -> ~ quoted_span_at s c.
Proof.
  intros (pre0 & ws0 & rest0 & -> & Hws0 & Hpre0 & Hrest0) pre s c Hsplit
         (ws & rest & -> & Hws & Hc & _ & Htl).
  set (M := lit "Agent Response:") in *.
  assert (HM : ~ In dquote M) by (apply quote_count_none; reflexivity).
  apply isspace_no_quote in Hws0, Hws.
  assert (A0 : ~ In dquote (pre0 ++ M ++ ws0)) by (rewrite !in_app_iff; tauto).
  pose proof (f_equal (fun l => count_occ ascii_dec l dquote) Hsplit) as Hn.
  simpl in Hn.
  repeat rewrite ?count_occ_app, ?count_occ_cons_eq in Hn by reflexivity.
  simpl in Hn.
  repeat rewrite ?count_occ_app, ?count_occ_cons_eq in Hn by reflexivity.
  apply quote_count_none in Hpre0, Hrest0, Hws0, HM.
  assert (Hpre : ~ In dquote pre) by (apply quote_count_none; lia).
  assert (Hcq : ~ In dquote c) by (apply quote_count_none; lia).
  assert (A1 : ~ In dquote (pre ++ M ++ ws)).
  { apply quote_count_none in HM. rewrite !in_app_iff. tauto. }
  assert (E : (pre0 ++ M ++ ws0) ++ dquote :: (dquote :: rest0) =
              (pre ++ M ++ ws) ++ dquote :: (c ++ dquote :: rest)).
  { rewrite <- !app_assoc. simpl in *. exact Hsplit. }
  apply first_occurrence_unique in E as [_ E]; [|exact A0|exact A1].
  destruct c as [|a c]; [congruence|]. simpl in E. injection E as <- _.
  apply Hcq. now left.
Qed.

Lemma only_empty_span_search message :
  only_empty_span message -> search response_pattern message = None.
Proof.
  intros H. destruct (search response_pattern message) as [gs|] eqn:S; [|reflexivity].
  apply search_response_found in S as (c & _ & pre & s & Hsplit & Hc & _).
  exfalso. eapply only_empty_span_none; eauto.
Qed.

Lemma recorded_not_empty lines :
  ~ In [] (responses_of (entries lines)).
Proof.
  unfold responses_of. rewrite in_flat_map. intros ([[ts l] m] & _ & H).
  simpl in H. destruct (extract_response l m) as [c|] eqn:E; simpl in H; [|tauto].
  destruct H as [->|[]].
  apply extract_some in E as [_ (pre & s & _ & (ws & rest & _ & _ & Hc & _) & _)].
  congruence.
Qed.

(** C10, as stated, fails: the message has an empty quoted span behind
    the marker, and the entry records a response all the same, the
    text from the second double quote up to the third. *)
Lemma empty_span_recorded :
  empty_span_after_marker empty_then_quote /\
  ai_response_counter (count_entry fresh (lit "INFO") empty_then_quote) =
    [(dquote :: lit "x", 1)] /\
  ai_response_counter (count_entry fresh (lit "INFO") empty_then_quote) <>
    ai_response_counter fresh.
Proof.
  split; [|split].
  - exists [], [" "%char], (lit "x" ++ [dquote]). split; reflexivity.
  - reflexivity.
  - discriminate.
Qed.

(* ================================================================= *)
(** ** Two calls, one after the other *)

Lemma load_app (h l : store) i : load (h ++ l) (length h + i) = nth i l [].
Proof.
  unfold load. rewrite app_nth2 by lia. f_equal. lia.
Qed.

Lemma save_app (h l : store) i c : save (h ++ l) (length h + i) c = h ++ save l i c.
Proof.
  induction h as [|x h IH]; simpl; [reflexivity|]. now rewrite IH.
Qed.

Lemma read_cells (h : store) st :
  read (h ++ cells st) (length h, S (length h), S (S (length h))) = st.
Proof.
  unfold read.
  replace (length h) with (length h + 0) at 1 by lia.
  replace (S (length h)) with (length h + 1) at 1 by lia.
  replace (S (S (length h))) with (length h + 2) by lia.
  rewrite !load_app. now destruct st.
Qed.

Lemma write_cells (h : store) st0 st :
  write (h ++ cells st0) (length h, S (length h), S (S (length h))) st =
  h ++ cells st.
Proof.
  unfold write.
  replace (length h) with (length h + 0) at 1 by lia.
  replace (S (length h)) with (length h + 1) at 1 by lia.
  replace (S (S (length h))) with (length h + 2) by lia.
  now rewrite !save_app.
Qed.

Lemma loop_in_store (h : store) lines : forall st,
  fold_left
    (fun h' line =>
       write h' (length h, S (length h), S (S (length h)))
             (loop_body (read h' (length h, S (length h), S (S (length h)))) line))
    lines (h ++ cells st) =
  h ++ cells (run_lines st lines).
Proof.
  induction lines as [|line lines IH]; intros st; [reflexivity|].
  cbn [fold_left]. now rewrite read_cells, write_cells, IH.
Qed.

(** A call returns the report of [parse_agent_logs] whatever the store
    holds, and leaves its three counters behind the objects that were
    there. *)
Lemma parse_agent_logs_in_spec (h : store) report_str :
  parse_agent_logs_in h report_str =
  (parse_agent_logs report_str,
   h ++ cells (run_lines fresh (splitlines report_str))).
Proof.
  unfold parse_agent_logs_in, alloc.
  rewrite !length_app. simpl length.
  replace (length h + 1) with (S (length h)) by lia.
  replace (S (length h) + 1) with (S (S (length h))) by lia.
  rewrite <- !app_assoc. simpl app.
  change [ []; []; [] ] with (cells fresh).
  rewrite loop_in_store, read_cells. reflexivity.
Qed.

(** C9: two calls on the same text, the second one in the store that
    the first one has left, return the same report, and it is the
    report of [parse_agent_logs]: every call counts in three counters
    of its own, created empty. *)
Theorem runs_identical (h : store) (report_str : str) :
  fst (run_twice h report_str) = snd (run_twice h report_str) /\
  run_twice h report_str =
    (parse_agent_logs report_str, parse_agent_logs report_str).
Proof.
  unfold run_twice. rewrite !parse_agent_logs_in_spec. split; reflexivity.
Qed.

(* ================================================================= *)
(** ** The number of responses that are listed *)

(** C3, on the code: called with [top_responses] 4 and [top_errors] 3
    on the log of [test_custom_top_n], [analyze_logs] returns the text
    of the file, and the report for this text has the header with the
    number 3 and three entries, although four different responses were
    counted. *)
Theorem top_responses_not_applied :
  analyze_logs (fun _ => Some custom_top_n_log) (lit "test.log") 4 3 =
    Some custom_top_n_log /\
  length (keys (ai_response_counter
                  (run_lines fresh (splitlines custom_top_n_log)))) = 4 /\
  lit "Top 3 AI Responses:" ::
    response_lines (run_lines fresh (splitlines custom_top_n_log)) =
    custom_top_n_responses /\
  forall report_str,
    length (response_lines (run_lines fresh (splitlines report_str))) <= 3.
Proof.
  split; [reflexivity|]. split; [reflexivity|]. split; [reflexivity|].
  intros report_str. unfold response_lines.
  rewrite length_map, length_enumerate. unfold most_common.
  apply firstn_le_length.
Qed.

(* ================================================================= *)
(** ** More on the counters of a run *)

Lemma get_run (lines : list str) (k : str) :
  get (level_counter (run_lines fresh lines)) k =
    count_occ str_eq_dec (levels_of (entries lines)) k /\
  get (ai_response_counter (run_lines fresh lines)) k =
    count_occ str_eq_dec (responses_of (entries lines)) k /\
  get (error_counter (run_lines fresh lines)) k =
    count_occ str_eq_dec (errors_of (entries lines)) k.
Proof.
  rewrite run_fresh_level, run_fresh_ai, run_fresh_error, !get_count.
  simpl. auto.
Qed.

(** X1: the three numbers of the summary are the numbers of entries
    whose token is exactly INFO, ERROR and WARNING. *)
Theorem summary_counts_exact (report_str : str) :
  let st := run_lines fresh (splitlines report_str) in
  let levels := levels_of (entries (splitlines report_str)) in
  summary_lines st =
    [ lit "Log Summary:";
      lit "- INFO messages: " ++
        str_of_nat (count_occ str_eq_dec levels (lit "INFO"));
      lit "- ERROR messages: " ++
        str_of_nat (count_occ str_eq_dec levels (lit "ERROR"));
      lit "- WARNING messages: " ++
        str_of_nat (count_occ str_eq_dec levels (lit "WARNING")) ].
Proof.
  intros st levels. subst st levels. unfold summary_lines, summary_line.
  now rewrite !(proj1 (get_run _ _)).
Qed.

Lemma length_errors_of es :
  length (errors_of es) = count_occ str_eq_dec (levels_of es) (lit "ERROR").
Proof.
  induction es as [|[[ts l] m] es IH]; [reflexivity|].
  unfold errors_of, levels_of in *. cbn [flat_map map fst snd].
  rewrite length_app, IH.
  destruct (str_eqb l (lit "ERROR")) eqn:E.
  - apply str_eqb_eq in E; subst l. now rewrite count_occ_cons_eq.
  - apply str_eqb_neq in E. rewrite count_occ_cons_neq by congruence.
    reflexivity.
Qed.

Lemma length_responses_of es :
  length (responses_of es) <= count_occ str_eq_dec (levels_of es) (lit "INFO").
Proof.
  induction es as [|[[ts l] m] es IH]; [simpl; lia|].
  unfold responses_of, levels_of in *. cbn [flat_map map fst snd].
  rewrite length_app.
  destruct (extract_response l m) as [c|] eqn:X; cbn [of_option length].
  - apply extract_some in X as [-> _].
    rewrite count_occ_cons_eq by reflexivity. lia.
  - destruct (str_eq_dec l (lit "INFO")) as [->|N].
    + rewrite count_occ_cons_eq by reflexivity. lia.
    + rewrite count_occ_cons_neq by exact N. lia.
Qed.

Lemma count_two_le (l : list str) :
  count_occ str_eq_dec l (lit "INFO") + count_occ str_eq_dec l (lit "ERROR") <=
  length l.
Proof.
  induction l as [|x l IH]; [simpl; lia|]. cbn [length].
  destruct (str_eq_dec x (lit "INFO")) as [->|N1].
  - rewrite count_occ_cons_eq by reflexivity.
    rewrite count_occ_cons_neq by discriminate. lia.
  - rewrite (count_occ_cons_neq _ _ N1).
    destruct (str_eq_dec x (lit "ERROR")) as [->|N2].
    + rewrite count_occ_cons_eq by reflexivity. lia.
    + rewrite (count_occ_cons_neq _ _ N2). lia.
Qed.

(** X2: the counts of the errors add up to the ERROR number of the
    summary; the counts of the responses add up to at most the INFO
    number; no entry is counted both as a response and as an error, so
    the two sums together stay within the number of entries. *)
Theorem section_sums (report_str : str) :
  let st := run_lines fresh (splitlines report_str) in
  total (error_counter st) = get (level_counter st) (lit "ERROR") /\
  total (ai_response_counter st) <= get (level_counter st) (lit "INFO") /\
  total (ai_response_counter st) + total (error_counter st) <=
    total (level_counter st).
Proof.
  intros st. subst st.
  set (es := entries (splitlines report_str)).
  assert (He : total (error_counter (run_lines fresh (splitlines report_str))) =
               length (errors_of es))
    by (rewrite run_fresh_error, total_count; reflexivity).
  assert (Ha : total (ai_response_counter (run_lines fresh (splitlines report_str))) =
               length (responses_of es))
    by (rewrite run_fresh_ai, total_count; reflexivity).
  assert (Hl : total (level_counter (run_lines fresh (splitlines report_str))) =
               length (levels_of es))
    by (rewrite run_fresh_level, total_count; reflexivity).
  rewrite He, Ha, Hl, !(proj1 (get_run _ _)). fold es.
  pose proof (length_errors_of es) as H1.
  pose proof (length_responses_of es) as H2.
  pose proof (count_two_le (levels_of es)) as H3.
  lia.
Qed.

Lemma entries_app l1 l2 : entries (l1 ++ l2) = entries l1 ++ entries l2.
Proof. apply flat_map_app. Qed.

(** X3: the counts of two inputs, one after the other, are the sums of
    their counts, in each of the three counters. *)
Theorem counts_add (lines1 lines2 : list str) (k : str) :
  get (level_counter (run_lines fresh (lines1 ++ lines2))) k =
    get (level_counter (run_lines fresh lines1)) k +
    get (level_counter (run_lines fresh lines2)) k /\
  get (ai_response_counter (run_lines fresh (lines1 ++ lines2))) k =
    get (ai_response_counter (run_lines fresh lines1)) k +
    get (ai_response_counter (run_lines fresh lines2)) k /\
  get (error_counter (run_lines fresh (lines1 ++ lines2))) k =
    get (error_counter (run_lines fresh lines1)) k +
    get (error_counter (run_lines fresh lines2)) k.
Proof.
  destruct (get_run (lines1 ++ lines2) k) as (-> & -> & ->).
  destruct (get_run lines1 k) as (-> & -> & ->).
  destruct (get_run lines2 k) as (-> & -> & ->).
  rewrite entries_app. unfold levels_of, responses_of, errors_of.
  now rewrite map_app, !flat_map_app, !count_occ_app.
Qed.

(** X4: the counts do not depend on the order of the input lines, and
    neither do the lines of the summary. *)
Theorem counts_order_free (lines lines' : list str) :
  Permutation lines lines' ->
  (forall k,
     get (level_counter (run_lines fresh lines)) k =
       get (level_counter (run_lines fresh lines')) k /\
     get (ai_response_counter (run_lines fresh lines)) k =
       get (ai_response_counter (run_lines fresh lines')) k /\
     get (error_counter (run_lines fresh lines)) k =
       get (error_counter (run_lines fresh lines')) k) /\
  summary_lines (run_lines fresh lines) = summary_lines (run_lines fresh lines').
Proof.
  intros Hp.
  assert (He : Permutation (entries lines) (entries lines'))
    by (unfold entries; now apply Permutation_flat_map).
  assert (H : forall k,
     get (level_counter (run_lines fresh lines)) k =
       get (level_counter (run_lines fresh lines')) k /\
     get (ai_response_counter (run_lines fresh lines)) k =
       get (ai_response_counter (run_lines fresh lines')) k /\
     get (error_counter (run_lines fresh lines)) k =
       get (error_counter (run_lines fresh lines')) k).
  { intros k.
    destruct (get_run lines k) as (-> & -> & ->).
    destruct (get_run lines' k) as (-> & -> & ->).
    repeat split; apply Permutation_count_occ.
    - unfold levels_of. now apply Permutation_map.
    - unfold responses_of. now apply Permutation_flat_map.
    - unfold errors_of. now apply Permutation_flat_map. }
  split; [exact H|].
  unfold summary_lines, summary_line. now rewrite !(proj1 (H _)).
Qed.

Lemma counts_order_free_witness :
  Permutation [lit "[T] ERROR - a"; lit "[T] INFO - b"]
              [lit "[T] INFO - b"; lit "[T] ERROR - a"] /\
  summary_lines (run_lines fresh [lit "[T] ERROR - a"; lit "[T] INFO - b"]) =
  summary_lines (run_lines fresh [lit "[T] INFO - b"; lit "[T] ERROR - a"]).
Proof.
  assert (H : Permutation [lit "[T] ERROR - a"; lit "[T] INFO - b"]
                          [lit "[T] INFO - b"; lit "[T] ERROR - a"])
    by apply perm_swap.
  split; [exact H|]. exact (proj2 (counts_order_free H)).
Defined.

(* ================================================================= *)
(** ** The three responses that are listed *)

Lemma length_sorted_desc (c : Counter) : length (sorted_desc c) = length c.
Proof. apply Permutation_length, sorted_desc_perm. Qed.

Lemma in_firstn_nth (A : Type) (x : A) n l :
  In x (firstn n l) <-> exists i, i < n /\ nth_error l i = Some x.
Proof.
  split.
  - intros H. apply In_nth_error in H as [i Hi].
    apply nth_firstn_some in Hi. now exists i.
  - intros (i & Hi & Hx). apply nth_error_In with (n := i).
    apply nth_firstn_some. auto.
Qed.

(** X5: the responses section has as many entries as there are
    different responses, but not more than three.  The listed
    responses are different from each other, each one was seen in the
    input and stands with the number of times it was seen, which is at
    least one; a response that is not listed was seen at most as often
    as any listed one. *)
Theorem top_three_largest (report_str : str) :
  let st := run_lines fresh (splitlines report_str) in
  let seen := responses_of (entries (splitlines report_str)) in
  let listed := most_common (ai_response_counter st) (Some 3) in
  length (response_lines st) = Nat.min 3 (length (nodup str_eq_dec seen)) /\
  NoDup (map fst listed) /\
  (forall r c, In (r, c) listed ->
     In r seen /\ c = count_occ str_eq_dec seen r /\ 1 <= c) /\
  (forall r c r', In (r, c) listed -> In r' seen -> ~ In r' (map fst listed) ->
     count_occ str_eq_dec seen r' <= c).
Proof.
  intros st seen listed. subst st listed. unfold response_lines.
  rewrite run_fresh_ai. fold seen. fold (tally_of seen).
  assert (Hnd : NoDup (keys (sorted_desc (tally_of seen)))).
  { apply (Permutation_NoDup (Permutation_sym (keys_sorted_perm _))).
    apply NoDup_keys_tally. }
  assert (Hin : forall r c, In (r, c) (sorted_desc (tally_of seen)) ->
                  In r seen /\ c = count_occ str_eq_dec seen r).
  { intros r c H. apply in_tally.
    now apply (Permutation_in _ (sorted_desc_perm _)). }
  unfold most_common. split; [|split; [|split]].
  - rewrite length_map, length_enumerate, length_firstn, length_sorted_desc.
    f_equal. unfold tally_of.
    rewrite <- (Permutation_length (distinct_keys seen)).
    unfold keys. now rewrite length_map.
  - unfold keys in Hnd. rewrite <- (firstn_skipn 3 (sorted_desc (tally_of seen))) in Hnd.
    rewrite map_app in Hnd. now apply NoDup_app_remove_r in Hnd.
  - intros r c H. apply in_firstn_nth in H as (i & _ & Hi).
    apply nth_error_In in Hi. destruct (Hin _ _ Hi) as [Hr ->].
    split; [exact Hr|]. split; [reflexivity|].
    apply (count_occ_In str_eq_dec) in Hr. lia.
  - intros r c r' Hl Hr' Hout.
    apply in_firstn_nth in Hl as (i & Hi & Hri).
    assert (Hk : In r' (keys (sorted_desc (tally_of seen)))).
    { apply (Permutation_in _ (Permutation_sym (keys_sorted_perm _))).
      unfold tally_of. rewrite in_keys_count. now right. }
    unfold keys in Hk. apply in_map_iff in Hk as ([r0 c'] & E & Hk).
    simpl in E; subst r0.
    destruct (Hin _ _ Hk) as [_ Hc'].
    apply In_nth_error in Hk as [j Hj].
    destruct (Nat.lt_ge_cases j 3) as [Hlt|Hge].
    + exfalso. apply Hout. apply in_map_iff. exists (r', c').
      split; [reflexivity|]. apply in_firstn_nth. now exists j.
    + rewrite <- Hc'.
      apply (@sorted_nth (sorted_desc (tally_of seen)) i j (r, c) (r', c'));
        auto using sorted_desc_sorted. lia.
Qed.

(* ================================================================= *)
(** ** The test for the marker *)

Lemma startswith_app (p s : str) : startswith p (p ++ s) = true.
Proof.
  induction p as [|a p IH]; simpl; [reflexivity|].
  now rewrite Ascii.eqb_refl, IH.
Qed.

Lemma contains_start (sub s : str) :
  startswith sub s = true -> contains sub s = true.
Proof. intros H. destruct s; simpl; now rewrite H. Qed.

Lemma contains_app (sub pre post : str) :
  contains sub (pre ++ sub ++ post) = true.
Proof.
  induction pre as [|a pre IH]; simpl.
  - apply contains_start, startswith_app.
  - rewrite IH. apply orb_true_r.
Qed.

Lemma startswith_split (p s : str) :
  startswith p s = true -> exists post, s = p ++ post.
Proof.
  revert s; induction p as [|a p IH]; intros s; simpl.
  - intros _. now exists s.
  - destruct s as [|b s]; [discriminate|].
    intros H. apply andb_true_iff in H as [Hab Hp].
    apply Ascii.eqb_eq in Hab; subst b.
    destruct (IH _ Hp) as [post ->]. now exists post.
Qed.

Lemma contains_split (sub s : str) :
  contains sub s = true <-> exists pre post, s = pre ++ sub ++ post.
Proof.
  split.
  - induction s as [|a s IH]; simpl.
    + rewrite orb_false_r. intros H. apply startswith_split in H as [post ->].
      now exists [], post.
    + intros H. apply orb_true_iff in H as [H|H].
      * apply startswith_split in H as [post ->]. now exists [], post.
      * destruct (IH H) as (pre & post & ->). now exists (a :: pre), post.
  - intros (pre & post & ->). apply contains_app.
Qed.

(** X6: the substring test in front of the search decides nothing:
    a message in which the search finds a response does hold the
    marker, so what an entry adds to the response counter is what the
    search finds, for INFO and for no other severity.  The test itself
    holds exactly for the messages that have the marker somewhere. *)
Theorem marker_test_redundant (level message : str) :
  extract_response level message =
    (if str_eqb level (lit "INFO")
     then match search response_pattern message with
          | Some (response_text :: _) => Some response_text
          | _ => None
          end
     else None) /\
  (contains (lit "Agent Response:") message = true <->
   exists pre post, message = pre ++ lit "Agent Response:" ++ post).
Proof.
  split; [|apply contains_split].
  unfold extract_response.
  destruct (str_eqb level (lit "INFO")); [|reflexivity]. cbn [andb].
  destruct (contains (lit "Agent Response:") message) eqn:C; [reflexivity|].
  destruct (search response_pattern message) as [gs|] eqn:S; [|reflexivity].
  apply search_response_found in S
    as (c & -> & pre & s & -> & (ws & rest & -> & _) & _).
  rewrite contains_app in C. discriminate.
Qed.

(* ================================================================= *)
(** ** The parts of an entry *)

Lemma isword_not_space c : isword c = true -> isspace c = false.
Proof. destruct c as [[] [] [] [] [] [] [] []]; vm_compute; congruence. Qed.

Lemma skipn_span_head cls (s : str) c r :
  skipn (span cls s) s = c :: r -> cls c = false.
Proof.
  induction s as [|a s IH]; simpl; [discriminate|].
  destruct (cls a) eqn:E; simpl; [exact IH|]. now intros [= <- _].
Qed.

Lemma span_stop cls (w t : str) :
  all cls w -> (forall c r, t = c :: r -> cls c = false) ->
  span cls (w ++ t) = length w.
Proof.
  unfold all. intros Hw Ht. induction w as [|a w IH]; simpl.
  - destruct t as [|c r]; [reflexivity|]. simpl. now rewrite (Ht c r eq_refl).
  - simpl in Hw. apply andb_true_iff in Hw as [-> Hw]. now rewrite IH.
Qed.

Lemma exec_last_total it q cls s :
  atom_of it = Rep q 0 cls -> exec [it] s <> None.
Proof.
  intros Ha. apply exec_complete with (pieces := [ [] ]). split.
  - constructor; [|constructor]. unfold piece_ok. rewrite Ha.
    split; [simpl; lia | reflexivity].
  - now exists s.
Qed.

Lemma exec_rep_parts it q least cls r s gs :
  atom_of it = Rep q least cls ->
  exec (it :: r) s = Some gs ->
  exists w s' gs',
    s = w ++ s' /\ least <= length w /\ all cls w /\
    exec r s' = Some gs' /\ gs = capture it w gs' /\
    (q = Greedy -> (forall t, exec r t <> None) ->
     forall c r', s' = c :: r' -> cls c = false).
Proof.
  intros Ha H.
  apply exec_rep_inv with (1 := Ha) in H as (k & gs' & Hk & Hr & Hg & _ & Hmax).
  exists (firstn k s), (skipn k s), gs'.
  pose proof (span_le cls s) as Hle.
  repeat split; auto.
  - symmetry; apply firstn_skipn.
  - rewrite length_firstn. lia.
  - apply span_firstn; lia.
  - intros Hq Htot c r' Hs.
    destruct (Nat.eq_dec k (span cls s)) as [->|Hne].
    + now apply skipn_span_head in Hs.
    + exfalso. apply (Htot (skipn (span cls s) s)). apply (Hmax Hq). lia.
Qed.

Lemma exec_pattern_parts line ts level msg :
  exec pattern line = Some [ts; level; msg] -> all isdot line ->
  exists w1 w2 w3,
    line = log_line ts w1 level w2 w3 msg /\
    gap w1 /\ gap w2 /\ gap w3 /\ level <> [] /\ all isword level /\
    (forall c r, msg = c :: r -> isspace c = false).
Proof.
  unfold pattern, Lit, log_line. cbn [lit list_ascii_of_string map app].
  intros H Hdot.
  apply exec_plain_chr in H as (s1 & -> & H).
  apply exec_rep_parts with (q := Lazy) (least := 0) (cls := isdot)
    in H as (w1 & s2 & g1 & -> & _ & _ & H & Hg1 & _); [|reflexivity].
  apply exec_plain_chr in H as (s3 & -> & H).
  apply exec_rep_parts with (q := Greedy) (least := 1) (cls := isspace)
    in H as (w2 & s4 & g2 & -> & L2 & A2 & H & -> & _); [|reflexivity].
  apply exec_rep_parts with (q := Greedy) (least := 1) (cls := isword)
    in H as (w3 & s5 & g3 & -> & L3 & A3 & H & -> & _); [|reflexivity].
  apply exec_rep_parts with (q := Greedy) (least := 1) (cls := isspace)
    in H as (w4 & s6 & g4 & -> & L4 & A4 & H & -> & _); [|reflexivity].
  apply exec_plain_chr in H as (s7 & -> & H).
  apply exec_rep_parts with (q := Greedy) (least := 1) (cls := isspace)
    in H as (w5 & s8 & g5 & -> & L5 & A5 & H & -> & Hhead); [|reflexivity].
  specialize (Hhead eq_refl
                (fun t => @exec_last_total (Group (Rep Greedy 0 isdot))
                            Greedy isdot t eq_refl)).
  apply exec_last_greedy with (least := 0) (cls := isdot) in H;
    [|reflexivity|].
  - subst g5. simpl in Hg1. injection Hg1 as -> -> ->.
    exists w2, w4, w5. unfold gap.
    repeat split; eauto using nonempty_length.
  - change ("["%char :: w1 ++ "]"%char :: w2 ++ w3 ++ w4 ++ "-"%char :: w5 ++ s8)
      with (["["%char] ++ w1 ++ ["]"%char] ++ w2 ++ w3 ++ w4 ++ ["-"%char] ++
            w5 ++ s8) in Hdot.
    repeat (apply all_app in Hdot as [_ Hdot]). exact Hdot.
Qed.

Lemma last_of_app (f g : str) c d : f ++ [c] = g ++ [d] -> c = d.
Proof. intros H. now apply app_inj_tail in H as [_ ->]. Qed.

(** X7: an entry read from a line of the input has a token that is a
    run of at least one word character, and a message that is not
    empty and has no white space at its two ends; its stripped line
    is the timestamp in brackets, the token, the dash and the message
    with runs of white space between them. *)
Theorem entry_parts (report_str line ts level msg : str) :
  In line (splitlines report_str) ->
  classify line = Some (ts, level, msg) ->
  (exists w1 w2 w3,
     strip line = log_line ts w1 level w2 w3 msg /\ gap w1 /\ gap w2 /\ gap w3) /\
  level <> [] /\ all isword level /\ msg <> [] /\ trimmed msg.
Proof.
  intros Hin C.
  assert (Hx : exec pattern (strip line) = Some [ts; level; msg]).
  { unfold classify in C. destruct (strip line) as [|c l]; [discriminate|].
    destruct (exec pattern (c :: l)) as [[|a [|b [|d [|? ?]]]]|];
      try discriminate. now injection C as -> -> ->. }
  assert (Hdot : all isdot (strip line))
    by (apply strip_all; eapply splitlines_no_feed; eauto).
  destruct (exec_pattern_parts Hx Hdot)
    as (w1 & w2 & w3 & Hs & G1 & G2 & G3 & Hl & Hw & Hhead).
  destruct (strip_spec line) as (_ & _ & _ & _ & _ & _ & Hlast).
  assert (Hne : msg <> []).
  { intros ->. destruct G3 as [N3 A3].
    destruct (exists_last N3) as (f & c & ->).
    apply all_app in A3 as [_ A3]. unfold all in A3. simpl in A3.
    rewrite andb_true_r in A3.
    rewrite (Hlast (lit "[" ++ ts ++ lit "]" ++ w1 ++ level ++ w2 ++ lit "-" ++ f) c)
      in A3; [discriminate|].
    rewrite Hs. unfold log_line. rewrite app_nil_r.
    repeat (simpl; rewrite <- app_assoc). reflexivity. }
  split; [now exists w1, w2, w3|]. repeat split; auto.
  intros f c ->. apply (Hlast (lit "[" ++ ts ++ lit "]" ++ w1 ++ level ++ w2 ++ lit "-" ++ w3 ++ f) c).
  rewrite Hs. unfold log_line. repeat (simpl; rewrite <- app_assoc). reflexivity.
Qed.

Lemma entry_parts_witness :
  In (lit "  [T]  ERROR -  disk full  ") (splitlines (lit "  [T]  ERROR -  disk full  ")) /\
  classify (lit "  [T]  ERROR -  disk full  ") =
    Some (lit "T", lit "ERROR", lit "disk full") /\
  trimmed (lit "disk full").
Proof.
  assert (Hin : In (lit "  [T]  ERROR -  disk full  ")
                   (splitlines (lit "  [T]  ERROR -  disk full  ")))
    by (left; reflexivity).
  assert (C : classify (lit "  [T]  ERROR -  disk full  ") =
              Some (lit "T", lit "ERROR", lit "disk full")) by reflexivity.
  split; [exact Hin|]. split; [exact C|].
  exact (proj2 (proj2 (proj2 (proj2 (entry_parts _ _ Hin C))))).
Defined.

(* ================================================================= *)
(** ** A line in the usual form is read as it is written *)

Lemma first_some_skip (A B : Type) (f : A -> option B) l1 l2 :
  (forall x, In x l1 -> f x = None) ->
  first_some f (l1 ++ l2) = first_some f l2.
Proof.
  induction l1 as [|a l1 IH]; intros H; simpl; [reflexivity|].
  rewrite (H a (or_introl eq_refl)). apply IH. intros x Hx. apply H. now right.
Qed.

Lemma exec_chr_step c r s :
  exec (Plain (Chr c) :: r) (c :: s) = exec r s.
Proof. simpl. rewrite Ascii.eqb_refl. now destruct (exec r s). Qed.

Lemma exec_rep_unfold it q least cls r s :
  atom_of it = Rep q least cls ->
  exec (it :: r) s =
  first_some
    (fun k => option_map (capture it (firstn k s)) (exec r (skipn k s)))
    (candidates q least cls s).
Proof. intros Ha. simpl. now rewrite Ha. Qed.

(** A greedy repetition takes a run of its class that the next
    character ends, when the rest of the pattern matches behind it. *)
Lemma exec_greedy_piece it least cls r (w t : str) gs :
  atom_of it = Rep Greedy least cls ->
  all cls w -> least <= length w ->
  (forall c r', t = c :: r' -> cls c = false) ->
  exec r t = Some gs ->
  exec (it :: r) (w ++ t) = Some (capture it w gs).
Proof.
  intros Ha Hw Hl Ht Hr. rewrite exec_rep_unfold with (1 := Ha). unfold candidates.
  rewrite (span_stop Hw Ht).
  replace (S (length w) - least) with (S (length w - least)) by lia.
  rewrite seq_S, rev_app_distr. simpl.
  replace (least + (length w - least)) with (length w) by lia.
  rewrite skipn_app, skipn_all, Nat.sub_diag. simpl. rewrite Hr. simpl.
  rewrite firstn_app, firstn_all, Nat.sub_diag. simpl. now rewrite app_nil_r.
Qed.

(** A lazy repetition in front of a literal character takes the text
    up to the first occurrence of that character, when the rest of the
    pattern matches there. *)
Lemma exec_lazy_piece it cls c0 r (w t : str) gs :
  atom_of it = Rep Lazy 0 cls ->
  all cls w -> ~ In c0 w ->
  exec (Plain (Chr c0) :: r) t = Some gs ->
  exec (it :: Plain (Chr c0) :: r) (w ++ t) = Some (capture it w gs).
Proof.
  intros Ha Hw Hc Hr. rewrite exec_rep_unfold with (1 := Ha). unfold candidates.
  pose proof (@span_app cls w t Hw) as Hspan.
  rewrite Nat.sub_0_r.
  replace (S (span cls (w ++ t)))
    with (length w + S (span cls (w ++ t) - length w)) by lia.
  rewrite seq_app, first_some_skip.
  - cbn [seq first_some plus]. rewrite skipn_app, skipn_all, Nat.sub_diag.
    cbn [skipn app]. rewrite Hr. cbn [option_map].
    rewrite firstn_app, firstn_all, Nat.sub_diag. cbn [firstn].
    now rewrite app_nil_r.
  - intros j Hj. apply in_seq in Hj.
    assert (Hs : exists c r', skipn j (w ++ t) = c :: r' /\ In c w).
    { rewrite skipn_app. replace (j - length w) with 0 by lia. cbn [skipn].
      destruct (skipn j w) as [|c r'] eqn:E.
      - apply (f_equal (@length ascii)) in E. rewrite length_skipn in E.
        simpl in E. lia.
      - exists c, (r' ++ t). split; [reflexivity|].
        rewrite <- (firstn_skipn j w), E. apply in_or_app. right. now left. }
    destruct Hs as (c & r' & -> & Hin). cbn [exec atom_of].
    destruct (Ascii.eqb c0 c) eqn:E; [|reflexivity].
    apply Ascii.eqb_eq in E; subst c. contradiction.
Qed.

Lemma gap_head_not_word (w t : str) c r :
  gap w -> w ++ t = c :: r -> isword c = false.
Proof.
  intros [Hne Hall] H. destruct w as [|a w]; [congruence|].
  simpl in H. injection H as <- _. unfold all in Hall. simpl in Hall.
  apply andb_true_iff in Hall as [Ha _].
  destruct (isword a) eqn:E; [|reflexivity].
  apply isword_not_space in E. congruence.
Qed.

Lemma exec_pattern_canonical ts w1 level w2 w3 msg :
  all isdot ts -> ~ In "]"%char ts ->
  gap w1 -> level <> [] -> all isword level -> gap w2 -> gap w3 ->
  all isdot msg -> (forall c r, msg = c :: r -> isspace c = false) ->
  exec pattern (log_line ts w1 level w2 w3 msg) = Some [ts; level; msg].
Proof.
  intros Hts Hbr G1 Hl Hw G2 G3 Hmsg Hhead.
  unfold pattern, Lit, log_line. cbn [lit list_ascii_of_string map app].
  rewrite exec_chr_step.
  apply (@exec_lazy_piece (Group (Rep Lazy 0 isdot)) isdot "]"%char _ ts _
           [level; msg] eq_refl Hts Hbr).
  rewrite exec_chr_step.
  destruct G1 as [N1 A1]. destruct G3 as [N3 A3].
  apply (@exec_greedy_piece (Plain (Rep Greedy 1 isspace)) 1 isspace _ w1 _
           [level; msg] eq_refl A1 (length_nonempty N1)).
  { intros c r E. destruct level as [|a level]; [congruence|].
    simpl in E. injection E as <- _. apply isword_not_space.
    unfold all in Hw. simpl in Hw. now apply andb_true_iff in Hw as [Ha _]. }
  apply (@exec_greedy_piece (Group (Rep Greedy 1 isword)) 1 isword _ level _
           [msg] eq_refl Hw (length_nonempty Hl)).
  { intros c r E. eapply gap_head_not_word; eauto. }
  destruct G2 as [N2 A2].
  apply (@exec_greedy_piece (Plain (Rep Greedy 1 isspace)) 1 isspace _ w2 _
           [msg] eq_refl A2 (length_nonempty N2)).
  { now intros c r [= <- _]. }
  rewrite exec_chr_step.
  apply (@exec_greedy_piece (Plain (Rep Greedy 1 isspace)) 1 isspace _ w3 _
           [msg] eq_refl A3 (length_nonempty N3) Hhead).
  rewrite <- (app_nil_r msg) at 1.
  apply (@exec_greedy_piece (Group (Rep Greedy 0 isdot)) 0 isdot [] msg []
           [] eq_refl Hmsg (Nat.le_0_l _)); [discriminate | reflexivity].
Qed.

Lemma strip_trimmed (l : str) : trimmed l -> strip l = l.
Proof.
  intros [Hh Hl]. unfold strip, lstrip, rstrip.
  assert (E : dropwhile isspace l = l).
  { destruct l as [|c r]; [reflexivity|]. simpl. now rewrite (Hh c r eq_refl). }
  rewrite E. destruct (rev l) as [|c r] eqn:R.
  - apply (f_equal (@rev ascii)) in R. now rewrite rev_involutive in R.
  - simpl. rewrite (Hl (rev r) c).
    + rewrite <- R. apply rev_involutive.
    + apply (f_equal (@rev ascii)) in R. now rewrite rev_involutive in R.
Qed.

Lemma classify_stripped (line l : str) :
  strip line = l -> l <> [] ->
  classify line =
  match exec pattern l with
  | Some [timestamp; level; message] => Some (timestamp, level, message)
  | _ => None
  end.
Proof.
  intros E N. unfold classify. rewrite E. destruct l; [congruence | reflexivity].
Qed.

(** X8: a line made of a timestamp in brackets (without closing
    bracket or line feed), a token of word characters, a dash and a
    message (not empty, without line feed, without white space at its
    two ends), with runs of white space between them and any white
    space around the line, is read as the entry of exactly these three
    parts. *)
Theorem usual_line_parsed (pad1 pad2 ts w1 level w2 w3 msg : str) :
  all isspace pad1 -> all isspace pad2 ->
  all isdot ts -> ~ In "]"%char ts ->
  gap w1 -> level <> [] -> all isword level -> gap w2 -> gap w3 ->
  all isdot msg -> msg <> [] -> trimmed msg ->
  classify (pad1 ++ log_line ts w1 level w2 w3 msg ++ pad2) =
    Some (ts, level, msg).
Proof.
  intros P1 P2 Hts Hbr G1 Hl Hw G2 G3 Hmsg Hne [Hh Hlast].
  rewrite classify_stripped with (l := log_line ts w1 level w2 w3 msg).
  - rewrite exec_pattern_canonical by assumption. reflexivity.
  - rewrite strip_pad by assumption. apply strip_trimmed. split.
    + unfold log_line. simpl. now intros c r [= <- _].
    + intros f c E. destruct (exists_last Hne) as (f' & c' & ->).
      unfold log_line in E. rewrite !app_assoc in E.
      apply last_of_app in E. subst c'. now apply (Hlast f').
  - unfold log_line. discriminate.
Qed.

Lemma usual_line_parsed_witness :
  classify (lit " " ++ log_line (lit "2025-02-20 14:33:15") (lit "  ") (lit "ERROR")
                         (lit " ") (lit " ") (lit "Model Timeout") ++ lit "  ") =
  Some (lit "2025-02-20 14:33:15", lit "ERROR", lit "Model Timeout").
Proof.
  apply usual_line_parsed; try reflexivity; try discriminate;
    try (split; [discriminate | reflexivity]).
  - intros H. repeat (destruct H as [H|H]; [discriminate|]). exact H.
  - split.
    + now intros c r [= <- _].
    + intros f c E.
      change (lit "Model Timeout") with (lit "Model Timeou" ++ ["t"%char]) in E.
      apply last_of_app in E. now subst c.
Defined.

(* ================================================================= *)
(** ** The lines of the report *)

Lemma splitlines_from_run (l s : str) : forall cur,
  all no_break l ->
  splitlines_from cur (l ++ s) = splitlines_from (rev l ++ cur) s.
Proof.
  induction l as [|a l IH]; intros cur H; [reflexivity|].
  unfold all in H. simpl in H. apply andb_true_iff in H as [Ha Hl].
  unfold no_break in Ha. apply negb_true_iff in Ha.
  simpl. rewrite Ha, IH by exact Hl. now rewrite <- app_assoc.
Qed.

Lemma splitlines_line (l : str) : all no_break l -> l <> [] -> splitlines l = [l].
Proof.
  intros H N. unfold splitlines.
  rewrite <- (app_nil_r l) at 1. rewrite splitlines_from_run by exact H.
  rewrite app_nil_r. simpl. destruct (rev l) eqn:R.
  - apply (f_equal (@rev ascii)) in R. rewrite rev_involutive in R. contradiction.
  - rewrite <- R. now rewrite rev_involutive.
Qed.

(** Joining lines with line feeds and splitting again gives the lines
    back, when no line holds a line boundary and the last line is not
    empty. *)
Lemma splitlines_join (ls : list str) :
  Forall (all no_break) ls ->
  (forall f l, ls = f ++ [l] -> l <> []) ->
  splitlines (join [newline] ls) = ls.
Proof.
  induction ls as [|l ls IH]; intros Hall Hlast; [reflexivity|].
  inversion Hall as [|? ? Hl Hls]; subst.
  destruct ls as [|l2 rest].
  - simpl. apply splitlines_line; [exact Hl|]. now apply (Hlast []).
  - change (join [newline] (l :: l2 :: rest))
      with (l ++ newline :: join [newline] (l2 :: rest)).
    unfold splitlines. rewrite splitlines_from_run by exact Hl.
    rewrite app_nil_r. cbn [splitlines_from].
    change (is_linebreak newline) with true. cbv iota.
    rewrite rev_involutive. f_equal.
    assert (E : splitlines_from [] (join [newline] (l2 :: rest)) = l2 :: rest).
    { apply IH; [exact Hls|]. intros f l' E. apply (Hlast (l :: f)).
      now rewrite E. }
    destruct (join [newline] (l2 :: rest)) as [|d s''] eqn:J; [exact E|].
    change ((code newline =? 13) && (code d =? 10)) with false. exact E.
Qed.

Lemma digit_no_break c : isdigit c = true -> no_break c = true.
Proof. destruct c as [[] [] [] [] [] [] [] []]; vm_compute; congruence. Qed.

Lemma digit_not_space c : isdigit c = true -> isspace c = false.
Proof. destruct c as [[] [] [] [] [] [] [] []]; vm_compute; congruence. Qed.

Lemma digit_not_bracket c : isdigit c = true -> c <> "["%char.
Proof. intros H ->. discriminate. Qed.

Lemma uint_digits (d : Decimal.uint) :
  all isdigit (lit (NilEmpty.string_of_uint d)).
Proof. unfold all, lit. induction d; simpl; auto. Qed.

Lemma to_uint_nonnil n : Nat.to_uint n <> Decimal.Nil.
Proof.
  rewrite <- (DecimalNat.Unsigned.of_to n) at 1.
  rewrite DecimalNat.Unsigned.to_of. apply DecimalFacts.unorm_nonnil.
Qed.

(** The decimal text of a number is a run of at least one digit. *)
Lemma str_of_nat_digits n :
  all isdigit (str_of_nat n) /\ exists d r, str_of_nat n = d :: r.
Proof.
  split; [apply uint_digits|]. unfold str_of_nat, lit.
  pose proof (to_uint_nonnil n) as H.
  destruct (Nat.to_uint n); simpl; eauto. congruence.
Qed.

Lemma all_impl (p q : ascii -> bool) (w : str) :
  (forall c, p c = true -> q c = true) -> all p w -> all q w.
Proof.
  unfold all. rewrite !forallb_forall. auto.
Qed.

Lemma str_of_nat_no_break n : all no_break (str_of_nat n).
Proof.
  apply all_impl with (p := isdigit); [apply digit_no_break|].
  apply str_of_nat_digits.
Qed.

Lemma splitlines_lines_no_break report_str line :
  In line (splitlines report_str) -> all no_break line.
Proof.
  intros Hin.
  pose proof (@splitlines_from_no_break (length report_str) report_str []
                (le_n _) eq_refl) as H.
  rewrite Forall_forall in H. exact (H line Hin).
Qed.

Lemma entry_no_break report_str line ts level msg :
  In line (splitlines report_str) -> classify line = Some (ts, level, msg) ->
  all no_break msg.
Proof.
  intros Hin C.
  destruct (entry_of_line _ _ Hin C) as (w1 & w2 & w3 & Hs).
  pose proof (strip_all (splitlines_lines_no_break _ _ Hin)) as H.
  rewrite Hs in H. repeat (apply all_app in H as [_ H]). exact H.
Qed.

Lemma in_responses r es :
  In r (responses_of es) <->
  exists ts level msg, In (ts, level, msg) es /\ extract_response level msg = Some r.
Proof.
  unfold responses_of. rewrite in_flat_map. split.
  - intros ([[ts l] m] & He & H). cbn [fst snd] in H.
    destruct (extract_response l m) as [c|] eqn:X; [|destruct H].
    destruct H as [->|[]]. now exists ts, l, m.
  - intros (ts & l & m & He & X). exists (ts, l, m). split; [exact He|].
    cbn [fst snd]. rewrite X. now left.
Qed.

Lemma response_no_break report_str r :
  In r (responses_of (entries (splitlines report_str))) -> all no_break r.
Proof.
  intros H. apply in_responses in H as (ts & l & m & He & X).
  apply in_entries in He as (line & Hin & C).
  pose proof (entry_no_break _ _ Hin C) as Hm.
  apply extract_some in X as [_ (pre & s & -> & (ws & rest & -> & _) & _)].
  apply all_app in Hm as [_ Hm]. apply all_app in Hm as [_ Hm].
  apply all_app in Hm as [_ Hm]. apply all_app in Hm as [_ Hm].
  now apply all_app in Hm as [Hm _].
Qed.

Lemma error_no_break report_str e :
  In e (errors_of (entries (splitlines report_str))) -> all no_break e.
Proof.
  intros H. apply in_errors in H as (line & ts & Hin & C).
  eapply entry_no_break; eauto.
Qed.

Lemma response_line_no_break i r c :
  all no_break r -> all no_break (response_line (i, (r, c))).
Proof.
  intros Hr. unfold response_line.
  repeat (apply all_app; split);
    auto using str_of_nat_no_break; reflexivity.
Qed.

Lemma error_line_no_break i e c :
  all no_break e -> all no_break (error_line (i, (e, c))).
Proof.
  intros He. unfold error_line.
  repeat (apply all_app; split);
    auto using str_of_nat_no_break; reflexivity.
Qed.

Lemma report_lines_no_break report_str :
  Forall (all no_break) (output_lines (run_lines fresh (splitlines report_str))).
Proof.
  unfold output_lines, summary_lines, summary_line, response_lines, error_lines.
  rewrite run_fresh_ai, run_fresh_error.
  repeat (apply Forall_app; split).
  - repeat constructor;
      repeat (apply all_app; split);
      auto using str_of_nat_no_break; reflexivity.
  - repeat constructor.
  - repeat constructor.
  - apply Forall_forall. intros line H.
    apply in_map_iff in H as ([i [r c]] & <- & H).
    apply response_line_no_break.
    apply (@in_ranked _ (Some 3)) in H as [H _].
    now apply response_no_break in H.
  - repeat constructor.
  - repeat constructor.
  - apply Forall_forall. intros line H.
    apply in_map_iff in H as ([i [e c]] & <- & H).
    apply error_line_no_break.
    apply (@in_ranked _ None) in H as [H _].
    now apply error_no_break in H.
Qed.

Lemma tail_in (A : Type) (X Y f : list A) (l : A) :
  Y <> [] -> X ++ Y = f ++ [l] -> In l Y.
Proof.
  intros N E. apply (f_equal (@rev A)) in E.
  rewrite !rev_app_distr in E. simpl in E.
  destruct (rev Y) as [|y Y'] eqn:R.
  - apply (f_equal (@rev A)) in R. rewrite rev_involutive in R. contradiction.
  - simpl in E. injection E as -> _. apply in_rev. rewrite R. now left.
Qed.

Lemma error_line_nonempty x : error_line x <> [].
Proof.
  destruct x as [i [e c]]. unfold error_line.
  destruct (str_of_nat_digits i) as [_ (d & r & ->)]. discriminate.
Qed.

Lemma split_report_lines (report_str : str) :
  splitlines (parse_agent_logs report_str) =
  output_lines (run_lines fresh (splitlines report_str)).
Proof.
  unfold parse_agent_logs. apply splitlines_join.
  - apply report_lines_no_break.
  - intros f l E. unfold output_lines in E. rewrite !app_assoc in E.
    rewrite <- app_assoc in E.
    apply tail_in in E; [|discriminate].
    destruct E as [<-|E]; [discriminate|].
    unfold error_lines in E. apply in_map_iff in E as (x & <- & _).
    apply error_line_nonempty.
Qed.

(** X9: the report, split into lines again, is the list of the lines
    it was joined from, and no line of it holds a line boundary. *)
Theorem report_split_again (report_str : str) :
  splitlines (parse_agent_logs report_str) =
    output_lines (run_lines fresh (splitlines report_str)) /\
  Forall (all no_break) (output_lines (run_lines fresh (splitlines report_str))).
Proof.
  split; [apply split_report_lines | apply report_lines_no_break].
Qed.

Lemma dropwhile_snoc p (x : str) c :
  p c = false -> exists y, dropwhile p (x ++ [c]) = y ++ [c].
Proof.
  intros Hc. induction x as [|a x [y IH]]; simpl.
  - rewrite Hc. now exists [].
  - destruct (p a); [now exists y | now exists (a :: x)].
Qed.

Lemma exec_pattern_head c s : c <> "["%char -> exec pattern (c :: s) = None.
Proof.
  intros Hc. unfold pattern, Lit. cbn [lit list_ascii_of_string map app].
  cbn [exec atom_of]. destruct (Ascii.eqb "["%char c) eqn:E; [|reflexivity].
  apply Ascii.eqb_eq in E. congruence.
Qed.

(** A line that begins with a character other than white space and the
    opening bracket is no entry. *)
Lemma classify_head c rest :
  isspace c = false -> c <> "["%char -> classify (c :: rest) = None.
Proof.
  intros Hs Hb. unfold classify, strip, lstrip, rstrip.
  cbn [dropwhile]. rewrite Hs. cbn [rev].
  destruct (dropwhile_snoc isspace (rev rest) c Hs) as [y ->].
  rewrite rev_app_distr. cbn [rev app]. now rewrite exec_pattern_head.
Qed.

Lemma run_lines_no_entries lines st :
  (forall line, In line lines -> classify line = None) ->
  run_lines st lines = st.
Proof.
  induction lines as [|line lines IH]; intros H; [reflexivity|].
  rewrite run_lines_cons, loop_body_classify, (H line (or_introl eq_refl)).
  apply IH. intros l Hl. apply H. now right.
Qed.

Lemma numbered_line_no_entry (i : nat) (rest : str) :
  classify (str_of_nat i ++ rest) = None.
Proof.
  destruct (str_of_nat_digits i) as [Hd (d & r & E)]. rewrite E in *.
  unfold all in Hd. simpl in Hd. apply andb_true_iff in Hd as [Hd _].
  apply classify_head; [now apply digit_not_space | now apply digit_not_bracket].
Qed.

Lemma report_line_no_entry st line :
  In line (output_lines st) -> classify line = None.
Proof.
  unfold output_lines, summary_lines, summary_line, response_lines, error_lines.
  rewrite !in_app_iff. intros H.
  repeat match type of H with
    | _ \/ _ => destruct H as [H|H]
    | In _ (_ :: _) => destruct H as [H|H]
    | In _ [] => destruct H
    end; try (subst line; reflexivity).
  - subst line. now apply classify_head.
  - subst line. now apply classify_head.
  - subst line. now apply classify_head.
  - apply in_map_iff in H as ([i [r c]] & <- & _). apply numbered_line_no_entry.
  - apply in_map_iff in H as ([i [e c]] & <- & _). apply numbered_line_no_entry.
Qed.

(** X10: no line of a report is an entry: a report that is given to
    [parse_agent_logs] as its input comes back as the report of the
    empty input. *)
Theorem report_is_no_log (report_str : str) :
  entries (splitlines (parse_agent_logs report_str)) = [] /\
  parse_agent_logs (parse_agent_logs report_str) = parse_agent_logs [].
Proof.
  assert (H : forall line,
            In line (splitlines (parse_agent_logs report_str)) ->
            classify line = None).
  { rewrite split_report_lines. intros line. apply report_line_no_entry. }
  split.
  - unfold entries. induction (splitlines (parse_agent_logs report_str)) as [|l ls IH];
      [reflexivity|].
    simpl. rewrite (H l (or_introl eq_refl)). apply IH.
    intros line Hl. apply H. now right.
  - unfold parse_agent_logs at 1.
    now rewrite run_lines_no_entries by exact H.
Qed.

(* ================================================================= *)
(** ** Reading the counts back from the report *)

Lemma int_of_str_of_nat n : int_of_str (str_of_nat n) = Some n.
Proof.
  unfold int_of_str. destruct (str_of_nat_digits n) as [_ (d & r & E)].
  rewrite E. rewrite <- E. unfold str_of_nat, lit.
  rewrite string_of_list_ascii_of_string, NilEmpty.usu. simpl.
  now rewrite DecimalNat.Unsigned.of_to.
Qed.

Lemma exec_lit_step (l : str) r s :
  exec (map (fun c => Plain (Chr c)) l ++ r) (l ++ s) = exec r s.
Proof.
  induction l as [|a l IH]; [reflexivity|].
  cbn [map app]. now rewrite exec_chr_step.
Qed.

Lemma exec_lit_inv (l : str) r s gs :
  exec (map (fun c => Plain (Chr c)) l ++ r) s = Some gs ->
  exists t, s = l ++ t /\ exec r t = Some gs.
Proof.
  revert s; induction l as [|a l IH]; intros s H.
  - now exists s.
  - cbn [map app] in H. apply exec_plain_chr in H as (s' & -> & H).
    destruct (IH _ H) as (t & -> & Ht). now exists t.
Qed.

(** The search passes over text that does not hold the first
    character of the pattern. *)
Lemma search_at c0 r (pre s : str) gs :
  ~ In c0 pre -> exec (Plain (Chr c0) :: r) s = Some gs ->
  search (Plain (Chr c0) :: r) (pre ++ s) = Some gs.
Proof.
  intros Hpre Hs. induction pre as [|a pre IH].
  - destruct s; simpl app; cbn [search]; now rewrite Hs.
  - cbn [app search].
    assert (E : exec (Plain (Chr c0) :: r) (a :: pre ++ s) = None).
    { cbn [exec atom_of]. destruct (Ascii.eqb c0 a) eqn:E; [|reflexivity].
      apply Ascii.eqb_eq in E. subst a. exfalso. apply Hpre. now left. }
    rewrite E. apply IH. intros H. apply Hpre. now right.
Qed.

Lemma digits_head (d : str) : digits d -> exists c r, d = c :: r /\ isdigit c = true.
Proof.
  intros [N A]. destruct d as [|c r]; [congruence|]. exists c, r.
  unfold all in A. simpl in A. now apply andb_true_iff in A as [-> _].
Qed.

Lemma digits_no_letter (d : str) c :
  isdigit c = false -> digits d -> ~ In c d.
Proof.
  intros Hc [_ A] Hin. unfold all in A. rewrite forallb_forall in A.
  apply A in Hin. congruence.
Qed.

(** At the label, the pattern of a count reads the digits up to the
    line feed. *)
Lemma exec_count (label : string) (d rest : str) :
  digits d ->
  exec (count_pattern label)
       (lit label ++ lit " messages: " ++ d ++ newline :: rest) = Some [d].
Proof.
  intros Hd. unfold count_pattern, Lit.
  rewrite exec_lit_step.
  change (lit " messages: ") with (lit " messages:" ++ [" "%char]).
  rewrite <- app_assoc, exec_lit_step.
  destruct (digits_head Hd) as (c & r & E & Hc). destruct Hd as [N A].
  apply (@exec_greedy_piece (Plain (Rep Greedy 0 isspace)) 0 isspace _
           [" "%char] _ [d] eq_refl eq_refl (Nat.le_0_l _)).
  { intros c' r' E'. rewrite E in E'. simpl in E'. injection E' as <- _.
    now apply digit_not_space. }
  apply (@exec_greedy_piece (Group (Rep Greedy 1 isdigit)) 1 isdigit []
           d _ [] eq_refl A (length_nonempty N)); [|reflexivity].
  now intros c' r' [= <- _].
Qed.

Ltac no_char :=
  let H := fresh in
  intros H; repeat (destruct H as [H|H]; [discriminate|]); exact H.

Ltac norm_app :=
  repeat (cbn [app lit list_ascii_of_string]; rewrite <- app_assoc);
  cbn [app lit list_ascii_of_string].

Lemma read_summary (dI dE dW rest : str) :
  digits dI -> digits dE -> digits dW ->
  search (count_pattern "INFO") (summary_text dI dE dW rest) = Some [dI] /\
  search (count_pattern "ERROR") (summary_text dI dE dW rest) = Some [dE] /\
  search (count_pattern "WARNING") (summary_text dI dE dW rest) = Some [dW].
Proof.
  intros HI HE HW. split; [|split].
  - replace (summary_text dI dE dW rest)
      with ((lit "Log Summary:" ++ [newline] ++ lit "- ") ++
            lit "INFO" ++ lit " messages: " ++ dI ++ newline ::
              (lit "- ERROR messages: " ++ dE ++ [newline] ++
               lit "- WARNING messages: " ++ dW ++ [newline] ++ rest))
      by (unfold summary_text; norm_app; reflexivity).
    apply (@search_at "I"%char); [|apply (@exec_count "INFO"); exact HI].
    no_char.
  - replace (summary_text dI dE dW rest)
      with ((lit "Log Summary:" ++ [newline] ++ lit "- INFO messages: " ++
             dI ++ [newline] ++ lit "- ") ++
            lit "ERROR" ++ lit " messages: " ++ dE ++ newline ::
              (lit "- WARNING messages: " ++ dW ++ [newline] ++ rest))
      by (unfold summary_text; norm_app; reflexivity).
    apply (@search_at "E"%char); [|apply (@exec_count "ERROR"); exact HE].
    rewrite !in_app_iff. intros [H|[H|[H|[H|[H|H]]]]]; revert H; try no_char.
    now apply digits_no_letter.
  - replace (summary_text dI dE dW rest)
      with ((lit "Log Summary:" ++ [newline] ++ lit "- INFO messages: " ++
             dI ++ [newline] ++ lit "- ERROR messages: " ++ dE ++
             [newline] ++ lit "- ") ++
            lit "WARNING" ++ lit " messages: " ++ dW ++ newline :: rest)
      by (unfold summary_text; norm_app; reflexivity).
    apply (@search_at "W"%char); [|apply (@exec_count "WARNING"); exact HW].
    rewrite !in_app_iff.
    intros [H|[H|[H|[H|[H|[H|[H|[H|H]]]]]]]]; revert H; try no_char;
      now apply digits_no_letter.
Qed.

Lemma str_of_nat_is_digits n : digits (str_of_nat n).
Proof.
  destruct (str_of_nat_digits n) as [A (d & r & E)].
  split; [rewrite E; discriminate | exact A].
Qed.

(** The report begins with the summary, and the three numbers are the
    counts of the three named severities. *)
Lemma report_summary_text (report_str : str) :
  exists rest,
    parse_agent_logs report_str =
    summary_text
      (str_of_nat (get (level_counter (run_lines fresh (splitlines report_str)))
                       (lit "INFO")))
      (str_of_nat (get (level_counter (run_lines fresh (splitlines report_str)))
                       (lit "ERROR")))
      (str_of_nat (get (level_counter (run_lines fresh (splitlines report_str)))
                       (lit "WARNING")))
      rest.
Proof.
  unfold parse_agent_logs, output_lines, summary_lines.
  set (st := run_lines fresh (splitlines report_str)).
  set (X := [lit "Top 3 AI Responses:"] ++ _).
  exists (join [newline] ([] :: X)).
  change (join [newline]
            ([lit "Log Summary:"; summary_line "INFO" (level_counter st);
              summary_line "ERROR" (level_counter st);
              summary_line "WARNING" (level_counter st)] ++ [ [] ] ++ X))
    with (lit "Log Summary:" ++ [newline] ++
          summary_line "INFO" (level_counter st) ++ [newline] ++
          summary_line "ERROR" (level_counter st) ++ [newline] ++
          summary_line "WARNING" (level_counter st) ++ [newline] ++
          join [newline] ([] :: X)).
  unfold summary_text, summary_line. norm_app. reflexivity.
Qed.

(** X11: what [extract_message_counts] reads from a report of
    [parse_agent_logs] are the numbers of entries with the tokens INFO,
    ERROR and WARNING: every one of the three values is found, and it
    is the count that was written. *)
Theorem counts_read_back (report_str : str) :
  let levels := levels_of (entries (splitlines report_str)) in
  extract_message_counts (parse_agent_logs report_str) =
    (Some (count_occ str_eq_dec levels (lit "INFO")),
     Some (count_occ str_eq_dec levels (lit "ERROR")),
     Some (count_occ str_eq_dec levels (lit "WARNING"))).
Proof.
  intros levels. subst levels.
  destruct (report_summary_text report_str) as [rest ->].
  rewrite !(proj1 (get_run _ _)).
  set (nI := count_occ str_eq_dec _ (lit "INFO")).
  set (nE := count_occ str_eq_dec _ (lit "ERROR")).
  set (nW := count_occ str_eq_dec _ (lit "WARNING")).
  unfold extract_message_counts, extract_count.
  destruct (@read_summary (str_of_nat nI) (str_of_nat nE) (str_of_nat nW) rest
              (str_of_nat_is_digits nI) (str_of_nat_is_digits nE)
              (str_of_nat_is_digits nW)) as (-> & -> & ->).
  now rewrite !int_of_str_of_nat.
Qed.

(** X12: on a text that does not hold the label with " messages:"
    behind it, [extract_message_counts] has [None] for this label. *)
Theorem count_missing (label : string) (text : str) :
  contains (lit label ++ lit " messages:") text = false ->
  extract_count label text = None.
Proof.
  intros H. unfold extract_count.
  destruct (search (count_pattern label) text) as [gs|] eqn:S; [|reflexivity].
  exfalso. apply search_some in S as (pre & s & -> & Hs & _).
  unfold count_pattern, Lit in Hs.
  apply exec_lit_inv in Hs as (t & -> & Hs).
  apply exec_lit_inv in Hs as (t' & -> & _).
  rewrite (app_assoc (lit label)), contains_app in H. discriminate.
Qed.

Lemma count_missing_witness :
  contains (lit "INFO" ++ lit " messages:") custom_top_n_log = false /\
  extract_count "INFO" custom_top_n_log = None.
Proof.
  assert (H : contains (lit "INFO" ++ lit " messages:") custom_top_n_log = false)
    by reflexivity.
  split; [exact H|]. exact (count_missing "INFO" custom_top_n_log H).
Defined.

(* ================================================================= *)
(** ** Splitting and joining *)

(** X13: the lines that [splitlines] returns hold no line boundary;
    and lines without line boundary, the last of them not empty, come
    back unchanged when they are joined with line feeds and split
    again. *)
Theorem split_and_join (ls : list str) :
  (forall text, Forall (all no_break) (splitlines text)) /\
  (Forall (all no_break) ls -> (forall f l, ls = f ++ [l] -> l <> []) ->
   splitlines (join [newline] ls) = ls).
Proof.
  split; [|apply splitlines_join].
  intros text. apply Forall_forall. intros line.
  apply splitlines_lines_no_break.
Qed.

Lemma split_and_join_witness :
  Forall (all no_break) [lit "a"; []; lit "b"] /\
  splitlines (join [newline] [lit "a"; []; lit "b"]) = [lit "a"; []; lit "b"].
Proof.
  assert (H : Forall (all no_break) [lit "a"; []; lit "b"])
    by (repeat constructor).
  split; [exact H|].
  apply (proj2 (split_and_join [lit "a"; []; lit "b"]) H).
  intros f l E.
  change [lit "a"; []; lit "b"] with ([lit "a"; []] ++ [lit "b"]) in E.
  apply app_inj_tail in E as [_ <-]. discriminate.
Defined.

Lemma top_three_largest_witness :
  In (lit "Hello! How can I help you today?", 3)
     (most_common (ai_response_counter
                     (run_lines fresh (splitlines custom_top_n_log))) (Some 3)) /\
  count_occ str_eq_dec (responses_of (entries (splitlines custom_top_n_log)))
            (lit "Thank you for your question.") <= 3.
Proof.
  assert (H : In (lit "Hello! How can I help you today?", 3)
                 (most_common (ai_response_counter
                                 (run_lines fresh (splitlines custom_top_n_log)))
                              (Some 3))) by (left; reflexivity).
  split; [exact H|].
  apply (proj2 (proj2 (proj2 (top_three_largest custom_top_n_log))) _ _ _ H).
  - vm_compute. do 4 right. left. reflexivity.
  - vm_compute. intros [E|[E|[E|[]]]]; discriminate.
Defined.

Lemma marker_test_redundant_witness :
  contains (lit "Agent Response:") greeting = true /\
  exists pre post, greeting = pre ++ lit "Agent Response:" ++ post.
Proof.
  assert (H : contains (lit "Agent Response:") greeting = true) by reflexivity.
  split; [exact H|].
  exact (proj1 (proj2 (marker_test_redundant (lit "INFO") greeting)) H).
Defined.

(* ================================================================= *)
(** ** The shape of the specification and the shape of the pattern *)

Lemma counts_fun (A : Type) (P : A -> Prop) (l : list A) n m :
  counts P l n -> counts P l m -> n = m.
Proof.
  intros H. revert m. induction H as [|x l n Hx _ IH|x l n Hx _ IH]; intros m Hm;
    inversion Hm; subst; auto; contradiction.
Qed.

Lemma spec_shape_log_shape line : spec_shape line -> log_shape line.
Proof.
  intros (ts & w1 & sev & w2 & w3 & msg & -> & Hts & _ & G1 & Hs & G2 & G3).
  exists ts, w1, sev, w2, w3, msg. split; [reflexivity|].
  unfold gap in *. tauto.
Qed.

(** On a line of the shape of the specification the first group is
    the text between the opening bracket and the first closing one. *)
Lemma spec_shape_group line :
  spec_shape line ->
  exists ts level msg,
    exec pattern line = Some [ts; level; msg] /\ ~ In "]"%char ts.
Proof.
  intros (ts & w1 & sev & w2 & w3 & msg & -> & Hts & Hbr &
          [N1 A1] & [Ns As] & [N2 A2] & [N3 A3]).
  destruct (exec (Lit "]" ++
                  [Plain (Rep Greedy 1 isspace); Group (Rep Greedy 1 isword);
                   Plain (Rep Greedy 1 isspace)] ++ Lit "-" ++
                  [Plain (Rep Greedy 1 isspace); Group (Rep Greedy 0 isdot)])
                 (lit "]" ++ w1 ++ sev ++ w2 ++ lit "-" ++ w3 ++ msg))
    as [gs|] eqn:E.
  - assert (P : exec pattern (log_line ts w1 sev w2 w3 msg) = Some (ts :: gs)).
    { unfold pattern, Lit, log_line. cbn [lit list_ascii_of_string map app].
      rewrite exec_chr_step.
      apply (@exec_lazy_piece (Group (Rep Lazy 0 isdot)) isdot "]"%char _ ts _
               gs eq_refl Hts Hbr).
      exact E. }
    pose proof P as G. apply exec_pattern_groups in G as (a & b & c & G).
    injection G as <- ->. exists ts, b, c. split; [exact P | exact Hbr].
  - exfalso. revert E.
    apply exec_complete with (pieces := [lit "]"; w1; sev; w2; lit "-"; w3; []]).
    split.
    + unfold Lit. simpl.
      repeat (apply Forall2_cons;
              [unfold piece_ok; simpl;
               first [reflexivity
                     | split; [first [lia | now apply length_nonempty]
                              | assumption || reflexivity]]|]).
      apply Forall2_nil.
    + exists msg. unfold concat. rewrite app_nil_r.
      repeat (simpl; rewrite <- app_assoc). reflexivity.
Qed.

Lemma not_spec_shape line ts level msg :
  exec pattern line = Some [ts; level; msg] -> In "]"%char ts ->
  ~ spec_shape line.
Proof.
  intros E Hin H. apply spec_shape_group in H as (ts' & l' & m' & E' & Hbr).
  rewrite E in E'. injection E' as <- _ _. contradiction.
Qed.

(** A line of the shape of the pattern whose first group holds no
    closing bracket has the shape of the specification. *)
Lemma group_spec_shape line ts level msg :
  exec pattern line = Some [ts; level; msg] -> ~ In "]"%char ts ->
  spec_shape line.
Proof.
  intros H Hbr. apply exec_sound in H as (pieces & (Hps & rest & ->) & G).
  unfold pattern, Lit in Hps. simpl in Hps. inv_pieces.
  unfold piece_ok in *; simpl in *.
  repeat match goal with
    | H : _ /\ _ |- _ => destruct H
    | H : ?w = [_] |- _ => subst w
    end.
  injection G as -> -> ->.
  match goal with
  | |- spec_shape ((_ ++ ?t ++ _ ++ ?w1 ++ ?sev ++ ?w2 ++ _ ++ ?w3 ++ ?m ++ []) ++ ?rest) =>
      exists t, w1, sev, w2, w3, (m ++ rest)
  end.
  unfold log_line, gap. rewrite app_nil_r. repeat (simpl; rewrite <- app_assoc). simpl.
  repeat split; eauto using nonempty_length.
Qed.

(** C4, as amended: the counts of the severity tally add up to the
    number of input lines that are not blank once stripped and have
    the shape that the line pattern accepts, in which the timestamp is
    any text without a line feed and may hold a closing bracket; a line
    that is not of this kind leaves the three counters as they are.
    Every line of the shape of the specification has this shape, and a
    line that has it without having the shape of the specification is
    read with a timestamp that holds a closing bracket. *)
Theorem severity_total (report_str : str) :
  let st := run_lines fresh (splitlines report_str) in
  counts (fun line => strip line <> [] /\ log_shape (strip line))
         (splitlines report_str) (total (level_counter st)) /\
  (forall st0 line,
     ~ (strip line <> [] /\ log_shape (strip line)) ->
     loop_body st0 line = st0) /\
  (forall line, spec_shape line -> log_shape line) /\
  (forall line, log_shape line -> ~ spec_shape line ->
     exists ts level msg,
       exec pattern line = Some [ts; level; msg] /\ In "]"%char ts).
Proof.
  intros st. subst st. split; [|split; [|split]].
  - rewrite run_fresh_level, total_count. simpl.
    unfold levels_of. rewrite length_map. apply counts_entries.
  - intros st0 line H. rewrite loop_body_classify.
    destruct (classify line) as [e|] eqn:C; [|reflexivity].
    apply classify_some in C. tauto.
  - apply spec_shape_log_shape.
  - intros line H Hn. apply exec_pattern_shape in H as [gs H].
    pose proof H as G. apply exec_pattern_groups in G as (ts & l & m & ->).
    exists ts, l, m. split; [exact H|].
    destruct (in_dec ascii_dec "]"%char ts) as [Hin|Hout]; [exact Hin|].
    exfalso. apply Hn. eapply group_spec_shape; eauto.
Qed.

Lemma severity_total_witness :
  counts (fun line => strip line <> [] /\ log_shape (strip line))
         (splitlines bracket_log) 2 /\
  ~ (strip (lit "no entry") <> [] /\ log_shape (strip (lit "no entry"))) /\
  loop_body (run_lines fresh (splitlines scenario_A)) (lit "no entry") =
    run_lines fresh (splitlines scenario_A) /\
  log_shape bracket_line /\ ~ spec_shape bracket_line /\
  exists ts level msg,
    exec pattern bracket_line = Some [ts; level; msg] /\ In "]"%char ts.
Proof.
  assert (H : ~ (strip (lit "no entry") <> [] /\
                 log_shape (strip (lit "no entry")))).
  { intros [_ H]. apply exec_pattern_shape in H as [gs H].
    vm_compute in H. discriminate. }
  assert (L : log_shape bracket_line).
  { apply exec_pattern_shape. eexists. vm_compute. reflexivity. }
  assert (N : ~ spec_shape bracket_line).
  { apply not_spec_shape with (ts := lit "a] b") (level := lit "INFO")
                              (msg := lit "x"); [reflexivity|].
    simpl. tauto. }
  split; [exact (proj1 (severity_total bracket_log))|].
  split; [exact H|].
  split; [exact (proj1 (proj2 (severity_total [])) _ _ H)|].
  split; [exact L|]. split; [exact N|].
  exact (proj2 (proj2 (proj2 (severity_total []))) bracket_line L N).
Defined.

(** C4, as stated, fails: of the three lines of the text one has the
    shape of the specification, and the counts of the severity tally
    add up to two, since the line with a closing bracket inside its
    brackets is counted as well. *)
Lemma bracket_line_counted :
  counts (fun line => strip line <> [] /\ spec_shape (strip line))
         (splitlines bracket_log) 1 /\
  total (level_counter (run_lines fresh (splitlines bracket_log))) = 2 /\
  ~ counts (fun line => strip line <> [] /\ spec_shape (strip line))
           (splitlines bracket_log)
           (total (level_counter (run_lines fresh (splitlines bracket_log)))).
Proof.
  assert (C : counts (fun line => strip line <> [] /\ spec_shape (strip line))
                     (splitlines bracket_log) 1).
  { change (splitlines bracket_log)
      with [lit "[T] ERROR - Timeout"; bracket_line; lit "no entry"].
    apply counts_yes; [|apply counts_no; [|apply counts_no; [|apply counts_nil]]].
    - split; [discriminate|].
      change (strip (lit "[T] ERROR - Timeout")) with (lit "[T] ERROR - Timeout").
      exists (lit "T"), (lit " "), (lit "ERROR"), (lit " "), (lit " "),
        (lit "Timeout").
      split; [reflexivity|]. split; [reflexivity|].
      split; [intros [E|[]]; discriminate|].
      repeat split; discriminate.
    - intros [_ H]. change (strip bracket_line) with bracket_line in H.
      revert H.
      apply not_spec_shape with (ts := lit "a] b") (level := lit "INFO")
                                (msg := lit "x"); [reflexivity|].
      simpl. tauto.
    - intros [_ H]. apply spec_shape_log_shape, exec_pattern_shape in H as [gs H].
      vm_compute in H. discriminate. }
  assert (T : total (level_counter (run_lines fresh (splitlines bracket_log))) = 2)
    by reflexivity.
  split; [exact C|]. split; [exact T|].
  intros H. rewrite T in H. pose proof (counts_fun C H). discriminate.
Qed.

(** C7, as stated, fails: the stripped line has not the shape of the
    specification, since the text behind its first closing bracket
    does not go on as the shape wants; yet the line is an entry and is
    counted in the severity tally and in the error counter. *)
Lemma bracket_line_is_entry :
  strip bracket_error_line <> [] /\
  ~ spec_shape (strip bracket_error_line) /\
  classify bracket_error_line = Some (lit "x] y", lit "ERROR", lit "disk") /\
  loop_body fresh bracket_error_line =
    Tallies [(lit "ERROR", 1)] [] [(lit "disk", 1)] /\
  loop_body fresh bracket_error_line <> fresh.
Proof.
  split; [discriminate|]. split; [|split; [reflexivity|split; [reflexivity|discriminate]]].
  change (strip bracket_error_line) with (lit "[x] y] ERROR - disk").
  apply not_spec_shape with (ts := lit "x] y") (level := lit "ERROR")
                            (msg := lit "disk"); [reflexivity|].
  simpl. tauto.
Qed.

(* ================================================================= *)
(** ** The span of the specification and the span that is recorded *)

Lemma in_split_first (x : ascii) (l : str) :
  In x l -> exists u t, l = u ++ x :: t /\ ~ In x u.
Proof.
  induction l as [|a l IH]; simpl; [tauto|].
  destruct (ascii_dec a x) as [->|Hne].
  - intros _. exists [], l. split; [reflexivity | simpl; tauto].
  - intros [E|H]; [contradiction|].
    destruct (IH H) as (u & t & -> & Hu). exists (a :: u), t.
    split; [reflexivity|]. simpl. tauto.
Qed.

(** A span of the specification that is not empty is the span that
    the response pattern captures at the same place. *)
Lemma spec_span_quoted s c :
  spec_span_at s c -> c <> [] -> all isdot c -> quoted_span_at s c.
Proof.
  intros (ws & rest & -> & Hws & Hq) Hc Hdot.
  exists ws, rest. repeat split; auto.
  intros H. apply Hq. destruct c; simpl in *; tauto.
Qed.

(** Where the response pattern captures a span, the specification has
    a span too: the same one, or the empty one when the captured span
    begins with a double quote. *)
Lemma quoted_span_spec s c :
  quoted_span_at s c -> exists c', spec_span_at s c'.
Proof.
  intros (ws & rest & -> & Hws & Hc & _ & Htl).
  destruct c as [|a c]; [congruence|]. simpl in Htl.
  destruct (ascii_dec a dquote) as [->|Hne].
  - exists [], ws, (c ++ [dquote] ++ rest).
    split; [reflexivity|]. split; [exact Hws | simpl; tauto].
  - exists (a :: c), ws, rest.
    split; [reflexivity|]. split; [exact Hws|].
    intros [E|H]; [congruence | contradiction].
Qed.

Lemma first_spec_span_quoted message c :
  all isdot message -> first_spec_span message c -> c <> [] ->
  first_quoted_span message c.
Proof.
  intros Hdot (pre & s & -> & Hs & Hmin) Hc.
  exists pre, s. split; [reflexivity|]. split.
  - apply spec_span_quoted; [exact Hs | exact Hc|].
    destruct Hs as (ws & rest & -> & _).
    apply all_app in Hdot as [_ Hdot]. apply all_app in Hdot as [_ Hdot].
    apply all_app in Hdot as [_ Hdot]. apply all_app in Hdot as [_ Hdot].
    now apply all_app in Hdot as [Hdot _].
  - intros pre' s' c' Hsplit Hlen Hq.
    apply quoted_span_spec in Hq as [c'' Hq]. exact (Hmin _ _ _ Hsplit Hlen Hq).
Qed.

(** The message of an entry holds no line feed. *)
Lemma entry_message_dot line ts level msg :
  classify line = Some (ts, level, msg) -> all isdot msg.
Proof.
  unfold classify. destruct (strip line) as [|c l]; [discriminate|].
  destruct (exec pattern (c :: l)) as [gs|] eqn:E; [|discriminate].
  apply exec_sound in E as (pieces & (Hps & _) & ->).
  unfold pattern, Lit in Hps. simpl in Hps. inv_pieces.
  unfold piece_ok in *; simpl in *.
  intros [= _ _ <-]. tauto.
Qed.

(** C6, as amended: for an INFO entry whose message has the marker,
    the first quoted span behind the marker (optional white space, a
    double quote, the text up to the next double quote), when it is not
    empty, is counted once more in the response counter and no other
    key changes; when the message has no quoted span behind a marker,
    the response counter stays as it is; an entry of any other
    severity leaves the response counter as it is.  In all cases what
    is counted is the span at the leftmost place where the marker,
    optional white space and a double quote are followed by at least
    one character and a later double quote: the span begins behind the
    opening quote and ends before the first double quote behind its
    first character.  The message of an entry holds no line feed.
    The body is a total function: nothing is raised. *)
Theorem response_recorded (st : tallies) (level message : str) :
  let recorded := ai_response_counter (count_entry st level message) in
  (level = lit "INFO" -> contains (lit "Agent Response:") message = true ->
   all isdot message ->
   forall c, first_spec_span message c -> c <> [] ->
     recorded = incr (ai_response_counter st) c /\
     get recorded c = S (get (ai_response_counter st) c) /\
     (forall other, other <> c ->
        get recorded other = get (ai_response_counter st) other)) /\
  (level = lit "INFO" -> contains (lit "Agent Response:") message = true ->
   (forall pre s c, message = pre ++ s -> ~ spec_span_at s c) ->
   recorded = ai_response_counter st) /\
  (level <> lit "INFO" -> recorded = ai_response_counter st) /\
  (level = lit "INFO" -> contains (lit "Agent Response:") message = true ->
   forall c, first_quoted_span message c ->
     recorded = incr (ai_response_counter st) c /\
     get recorded c = S (get (ai_response_counter st) c) /\
     (forall other, other <> c ->
        get recorded other = get (ai_response_counter st) other)) /\
  (level = lit "INFO" -> contains (lit "Agent Response:") message = true ->
   (forall c, ~ first_quoted_span message c) ->
   recorded = ai_response_counter st) /\
  (forall line ts, classify line = Some (ts, level, message) ->
     all isdot message).
Proof.
  intros recorded. subst recorded. rewrite ai_count_entry.
  assert (Found : level = lit "INFO" ->
                  contains (lit "Agent Response:") message = true ->
                  forall c, first_quoted_span message c ->
                    fold_left incr (of_option (extract_response level message))
                      (ai_response_counter st) =
                    incr (ai_response_counter st) c /\
                    get (fold_left incr (of_option (extract_response level message))
                           (ai_response_counter st)) c =
                    S (get (ai_response_counter st) c) /\
                    (forall other, other <> c ->
                       get (fold_left incr
                              (of_option (extract_response level message))
                              (ai_response_counter st)) other =
                       get (ai_response_counter st) other)).
  { intros Hl Hm c Hc. rewrite (extract_found Hl Hm Hc). simpl.
    split; [reflexivity|]. split; [apply get_incr_same|].
    intros other Ho. apply get_incr_other. congruence. }
  split; [|split; [|split; [|split; [|split]]]].
  6: { intros line ts. apply entry_message_dot. }
  - intros Hl Hm Hdot c Hc Hne. apply Found; auto.
    now apply first_spec_span_quoted.
  - intros _ _ Hnone.
    destruct (extract_response level message) as [c|] eqn:E; [|reflexivity].
    apply extract_some in E as [_ (pre & s & Hsplit & Hq & _)].
    apply quoted_span_spec in Hq as [c' Hq]. exfalso. exact (Hnone pre s c' Hsplit Hq).
  - intros Hl.
    destruct (extract_response level message) as [c|] eqn:E; [|reflexivity].
    apply extract_some in E as [E _]. contradiction.
  - exact Found.
  - intros _ _ Hnone.
    destruct (extract_response level message) as [c|] eqn:E; [|reflexivity].
    apply extract_some in E as [_ Hc]. now apply Hnone in Hc.
Qed.

Lemma response_recorded_witness :
  contains (lit "Agent Response:") greeting = true /\
  all isdot greeting /\
  first_spec_span greeting (lit "Hi") /\
  ai_response_counter
    (count_entry (Tallies [] [(lit "Hi", 2); (lit "Bye", 1)] [])
                 (lit "INFO") greeting) =
    [(lit "Hi", 3); (lit "Bye", 1)] /\
  ai_response_counter
    (count_entry (Tallies [] [(lit "Hi", 2); (lit "Bye", 1)] [])
                 (lit "WARNING") greeting) =
    [(lit "Hi", 2); (lit "Bye", 1)].
Proof.
  assert (Hm : contains (lit "Agent Response:") greeting = true) by reflexivity.
  assert (Hd : all isdot greeting) by reflexivity.
  assert (Hc : first_spec_span greeting (lit "Hi")).
  { exists [], greeting. split; [reflexivity|]. split.
    - exists [" "%char], []. repeat split.
      intros [H|[H|[]]]; discriminate.
    - simpl. intros pre' s' c' _ Hlen. lia. }
  assert (Hn : lit "Hi" <> []) by discriminate.
  assert (Hw : lit "WARNING" <> lit "INFO") by discriminate.
  split; [exact Hm|]. split; [exact Hd|]. split; [exact Hc|]. split.
  - exact (proj1 (proj1 (@response_recorded
                           (Tallies [] [(lit "Hi", 2); (lit "Bye", 1)] [])
                           (lit "INFO") greeting)
                    eq_refl Hm Hd (lit "Hi") Hc Hn)).
  - exact (proj1 (proj2 (proj2 (@response_recorded
                                  (Tallies [] [(lit "Hi", 2); (lit "Bye", 1)] [])
                                  (lit "WARNING") greeting))) Hw).
Defined.

(** C6, as stated, fails: the first quoted span behind the marker, up
    to the next double quote, is the empty one; the entry does not
    count the empty text but the text from the second double quote up
    to the third. *)
Lemma empty_first_span_skipped :
  contains (lit "Agent Response:") empty_then_later = true /\
  first_spec_span empty_then_later [] /\
  ai_response_counter (count_entry fresh (lit "INFO") empty_then_later) =
    [(dquote :: lit " and ", 1)] /\
  ai_response_counter (count_entry fresh (lit "INFO") empty_then_later) <>
    incr (ai_response_counter fresh) [].
Proof.
  split; [reflexivity|]. split; [|split; [reflexivity | discriminate]].
  exists [], empty_then_later. split; [reflexivity|]. split.
  - exists [" "%char], (lit " and " ++ quoted "later").
    split; [reflexivity|]. split; [reflexivity | simpl; tauto].
  - simpl. intros pre' s' c' _ Hlen. lia.
Qed.

(* ================================================================= *)
(** ** The empty span with text in front of the marker *)

Lemma search_none r : forall s,
  search r s = None -> forall pre s', s = pre ++ s' -> exec r s' = None.
Proof.
  induction s as [|a s IH]; simpl.
  - destruct (exec r []) eqn:E; [discriminate|].
    intros _ pre s' H. symmetry in H. apply app_eq_nil in H as [_ ->]. exact E.
  - destruct (exec r (a :: s)) eqn:E; [discriminate|].
    intros H [|b pre] s' Hsplit; simpl in Hsplit.
    + now subst s'.
    + injection Hsplit as _ Hsplit. now apply (IH H pre).
Qed.

Lemma incr_changes c k : incr c k <> c.
Proof.
  intros H. pose proof (get_incr_same c k) as G. rewrite H in G. lia.
Qed.

(** For an INFO entry whose message has the marker, the response
    counter stays as it is exactly when no place of the message has a
    quoted span. *)
Lemma unrecorded_iff st message :
  contains (lit "Agent Response:") message = true ->
  ai_response_counter (count_entry st (lit "INFO") message) =
    ai_response_counter st <->
  forall p s c, message = p ++ s -> ~ quoted_span_at s c.
Proof.
  intros Hm. rewrite ai_count_entry. unfold extract_response.
  rewrite str_eqb_refl, Hm. simpl. split.
  - intros H p s c Hsplit Hq.
    destruct (search response_pattern message) as [gs|] eqn:S.
    + apply search_response_found in S as (c' & -> & _). simpl in H.
      now apply incr_changes in H.
    + apply exec_response_complete in Hq. apply Hq.
      eapply search_none; eauto.
  - intros H.
    destruct (search response_pattern message) as [gs|] eqn:S; [|reflexivity].
    apply search_response_found in S as (c & _ & pre & s & Hsplit & Hq & _).
    exfalso. eapply H; eauto.
Qed.

Lemma split_at_or_behind (A : Type) (pre t p s : list A) :
  pre ++ t = p ++ s -> length pre <= length p -> exists d, t = d ++ s.
Proof.
  revert p. induction pre as [|a pre IH]; intros p H Hlen; simpl in *.
  - now exists p.
  - destruct p as [|b p]; simpl in *; [lia|].
    injection H as _ H. apply (IH p H). lia.
Qed.

Lemma lone_empty_span_none message :
  lone_empty_span message ->
  forall p s c, message = p ++ s -> ~ quoted_span_at s c.
Proof.
  intros (pre & ws & rest & -> & Hws & Hrest & Hfront) p s c Hsplit Hq.
  destruct (Nat.lt_ge_cases (length p) (length pre)) as [Hlt|Hge].
  - exact (Hfront p s c Hsplit Hlt Hq).
  - destruct (split_at_or_behind _ _ _ _ Hsplit Hge) as [d Hd].
    revert Hq. apply only_empty_span_none with (pre := d) (2 := Hd).
    exists [], ws, rest. repeat split; auto.
Qed.

(** When the text in front of the marker has no capital A, no quoted
    span begins there. *)
Lemma no_span_in_front (pre t : str) :
  ~ In "A"%char pre ->
  forall p s c, pre ++ t = p ++ s -> length p < length pre ->
                ~ quoted_span_at s c.
Proof.
  intros Hpre p s c Hsplit Hlen (ws & rest & -> & _).
  apply Hpre. clear Hpre. revert p Hsplit Hlen.
  induction pre as [|a pre IH]; intros p Hsplit Hlen; simpl in *; [lia|].
  destruct p as [|b p]; simpl in *.
  - injection Hsplit as -> _. now left.
  - injection Hsplit as _ Hsplit. right. apply (IH p Hsplit). lia.
Qed.

(** C10, as amended: an entry whose message has the marker, optional
    white space and an empty quoted span, with no double quote behind
    that span and no quoted span that begins at an earlier place of
    the message, adds nothing to the response counter, whatever double
    quotes stand in front of the marker; the empty text is never a key
    of the response counter.  The two conditions cannot be spared: for
    an INFO entry whose message has no line feed, the response counter
    stays as it is only if both of them hold. *)
Theorem empty_span_not_recorded :
  (forall st level message,
     lone_empty_span message ->
     ai_response_counter (count_entry st level message) =
     ai_response_counter st) /\
  (forall report_str,
     ~ In [] (keys (ai_response_counter
                      (run_lines fresh (splitlines report_str))))) /\
  (forall st message pre ws rest,
     message = pre ++ lit "Agent Response:" ++ ws ++ [dquote; dquote] ++ rest ->
     all isspace ws -> all isdot message ->
     ai_response_counter (count_entry st (lit "INFO") message) =
     ai_response_counter st ->
     ~ In dquote rest /\
     forall p s c, message = p ++ s -> length p < length pre ->
                   ~ quoted_span_at s c).
Proof.
  split; [|split].
  - intros st level message H. rewrite ai_count_entry.
    assert (S : search response_pattern message = None).
    { destruct (search response_pattern message) as [gs|] eqn:S; [|reflexivity].
      apply search_response_found in S as (c & _ & pre & s & Hsplit & Hc & _).
      exfalso. eapply lone_empty_span_none; eauto. }
    unfold extract_response. rewrite S.
    now destruct (str_eqb level (lit "INFO") &&
                  contains (lit "Agent Response:") message).
  - intros report_str. rewrite run_fresh_ai, in_keys_count. simpl.
    intros [[]|H]. now apply recorded_not_empty in H.
  - intros st message pre ws rest Hmsg Hws Hdot H.
    assert (Hm : contains (lit "Agent Response:") message = true).
    { rewrite Hmsg. apply contains_app. }
    pose proof (proj1 (@unrecorded_iff st message Hm) H) as Hnone.
    split; [|intros p s c Hsplit _; now apply (Hnone p s c)].
    intros Hin. apply in_split_first in Hin as (u & t & Hrest & Hu).
    apply (Hnone pre (lit "Agent Response:" ++ ws ++ [dquote; dquote] ++ rest)
                 (dquote :: u) Hmsg).
    exists ws, t. split; [|split; [exact Hws|split; [discriminate|split]]].
    + rewrite Hrest. reflexivity.
    + rewrite Hmsg, Hrest in Hdot.
      apply all_app in Hdot as [_ Hdot]. apply all_app in Hdot as [_ Hdot].
      apply all_app in Hdot as [_ Hdot].
      change ([dquote; dquote] ++ u ++ dquote :: t)
        with ([dquote] ++ (dquote :: u) ++ dquote :: t) in Hdot.
      apply all_app in Hdot as [_ Hdot]. now apply all_app in Hdot as [Hdot _].
    + exact Hu.
Qed.

Lemma empty_span_not_recorded_witness :
  lone_empty_span quote_before_marker /\
  ai_response_counter
    (count_entry (Tallies [] [(lit "Hi", 2)] []) (lit "INFO")
                 quote_before_marker) = [(lit "Hi", 2)] /\
  (~ In dquote [] /\
   forall p s c, empty_only = p ++ s -> length p < length (@nil ascii) ->
                 ~ quoted_span_at s c).
Proof.
  assert (H : lone_empty_span quote_before_marker).
  { exists (lit "say " ++ quoted "hi" ++ lit " then "), [" "%char], [].
    split; [reflexivity|]. split; [reflexivity|]. split; [simpl; tauto|].
    apply (@no_span_in_front (lit "say " ++ quoted "hi" ++ lit " then ")).
    vm_compute. intros F.
    repeat (destruct F as [F|F]; [discriminate|]). exact F. }
  split; [exact H|]. split.
  - exact (proj1 empty_span_not_recorded (Tallies [] [(lit "Hi", 2)] [])
             (lit "INFO") quote_before_marker H).
  - apply (proj2 (proj2 empty_span_not_recorded) fresh empty_only []
             [" "%char] []); reflexivity.
Defined.
